(** * Terrain layering model: elevation tiles, mosaics, levels and contours

    A shallow embedding of the numeric core of [download_dem.py] and
    [terrain_layering.py].

    Number model.  The Python code computes with IEEE binary64 floats.
    The tile coordinates, the crop of the mosaic, the Ramer-Douglas-Peucker
    distances and the bounds read from the command line are modelled with
    binary64 floats ([PrimFloat]), operation by operation as the source
    performs them; the functions of the C library behind [math] are
    parameters.  Elsewhere an elevation or a pixel coordinate is an exact
    rational ([Q]) and an angle an exact real ([R]): there rounding is
    abstracted away, the control flow and the formulas are those of the
    source.  A no-data cell (NaN in the source) of a raster is [None]. *)

From Stdlib Require Import ZArith QArith Qround Qminmax Reals.
From Stdlib Require Import List Permutation Bool Lia Psatz.
From Stdlib Require Ascii.
From Stdlib Require PrimFloat FloatOps SpecFloat FloatAxioms.
Import ListNotations.

(** An elevation cell: [Some q] is [q] metres, [None] is NaN (no-data). *)
Definition cell : Type := option Q.

(** A raster is a list of rows. *)
Definition grid (A : Type) : Type := list (list A).

(** Element-wise combination of two arrays of the same shape. *)
Fixpoint zip_with {A B C : Type} (f : A -> B -> C) (xs : list A) (ys : list B)
  : list C :=
  match xs, ys with
  | x :: xs', y :: ys' => f x y :: zip_with f xs' ys'
  | _, _ => []
  end.

(** A test that holds for all pairs of two arrays of the same length. *)
Fixpoint forall2b {A B : Type} (f : A -> B -> bool) (xs : list A)
    (ys : list B) : bool :=
  match xs, ys with
  | [], [] => true
  | x :: xs', y :: ys' => f x y && forall2b f xs' ys'
  | _, _ => false
  end.

(** [x < y] on numbers, as a test. *)
Definition Qltb (x y : Q) : bool := negb (Qle_bool y x).

Definition is_nan (c : cell) : bool :=
  match c with None => true | Some _ => false end.

(* ================================================================== *)
(** * ElevationTileDecoder: [png_to_elevation] *)
(* ================================================================== *)

Module Decoder.

Local Open Scope Z_scope.

(** One RGB pixel of the decoded image, [arr[i, j, :]] with dtype uint32. *)
Record pixel : Type := { red : Z; green : Z; blue : Z }.

Definition is_byte (v : Z) : Prop := 0 <= v < 256.

Definition rgb_bytes (p : pixel) : Prop :=
  is_byte (red p) /\ is_byte (green p) /\ is_byte (blue p).

(** uint32 arithmetic wraps modulo 2^32. *)
Definition u32 (v : Z) : Z := v mod 4294967296.

(** [x = r * 65536 + g * 256 + b] on uint32 arrays. *)
Definition pixel_x (p : pixel) : Z :=
  u32 (u32 (u32 (red p * 65536) + u32 (green p * 256)) + blue p).

(** The two branches of
    [np.where(x < 8388608, x * 0.01, (x - 16777216.0) * 0.01)]. *)
Definition where_branch (x : Z) : Q :=
  if x <? 8388608
  then (inject_Z x * 0.01)%Q
  else ((inject_Z x - 16777216) * 0.01)%Q.

(** [elev = np.where(...)] followed by [elev[x == 8388608] = np.nan]. *)
Definition elevation_of_x (x : Z) : cell :=
  let elev := Some (where_branch x) in
  if x =? 8388608 then None else elev.

Definition png_to_elevation (img : grid pixel) : grid cell :=
  map (map (fun p => elevation_of_x (pixel_x p))) img.

(** The decoding rule in the order the specification gives it: first the
    no-data value, then the positive range, then the negative range. *)
Definition decoder_rule (x : Z) : cell :=
  if x =? 8388608 then None
  else if x <? 8388608 then Some (inject_Z x * 0.01)%Q
  else Some ((inject_Z x - 16777216) * 0.01)%Q.

(** The value of a cell, up to equality of rationals. *)
Definition metres (c : cell) (q : Q) : Prop :=
  match c with Some v => (v == q)%Q | None => False end.

End Decoder.

(* ================================================================== *)
(** * ElevationLevelSequencer: [TerrainLayerGenerator.get_levels] *)
(* ================================================================== *)

Module Levels.

Local Open Scope Q_scope.

(** The attributes of [TerrainLayerGenerator] read by [get_levels]. *)
Record generator : Type := {
  interval : Q;
  base_elev : Q;
  max_elev : Q
}.

(** [np.floor(self.min_elev / interval) * interval] when no base is given. *)
Definition auto_base (min_elev interval : Q) : Q :=
  inject_Z (Qfloor (min_elev / interval)) * interval.

Definition init_base (base_elevation : option Q) (min_elev interval : Q) : Q :=
  match base_elevation with
  | None => auto_base min_elev interval
  | Some b => b
  end.

(** Python's [max(0.0, b)]: the first argument unless the second is greater. *)
Definition effective_base (g : generator) : Q :=
  if Qlt_le_dec 0 (base_elev g) then base_elev g else 0.

(** The [while v <= max_elev + interval * 0.01] loop; [None] when the fuel
    runs out before the loop condition fails. *)
Fixpoint levels_loop (fuel : nat) (g : generator) (v : Q) : option (list Q) :=
  match fuel with
  | O => None
  | S fuel' =>
      if Qle_bool v (max_elev g + interval g * 0.01)
      then option_map (cons v) (levels_loop fuel' g (v + interval g))
      else Some []
  end.

Definition get_levels (fuel : nat) (g : generator) : option (list Q) :=
  levels_loop fuel g (effective_base g).

(** The bound of the loop condition. *)
Definition top (g : generator) : Q := max_elev g + interval g * 0.01.

(** The generator of the worked example: min -5, max 123, interval 10. *)
Definition example_generator : generator :=
  {| interval := 10;
     base_elev := init_base None (-5) 10;
     max_elev := 123 |}.

End Levels.

(* ================================================================== *)
(** * [TerrainLayerGenerator.__init__]: no-data handling and statistics *)
(* ================================================================== *)

Module Generator.

Local Open Scope Q_scope.

(** [raw[cond(raw)] = np.nan]: a comparison with NaN is false, so a NaN
    cell stays NaN. *)
Definition set_nan_where (cond : Q -> bool) (raw : grid cell) : grid cell :=
  map (map (fun c : cell =>
              match c with
              | Some v => if cond v then None else Some v
              | None => None
              end)) raw.

(** Steps 1 to 3: the nodata value of the file, the sentinels at or below
    -9000, and (when no [elev_range_min] is given) everything below 0. *)
Definition mask_nodata (nodata : option Q) (raw : grid cell) : grid cell :=
  match nodata with
  | Some nd => set_nan_where (fun v => Qeq_bool v nd) raw
  | None => raw
  end.

Definition mask_sentinels (raw : grid cell) : grid cell :=
  set_nan_where (fun v => Qle_bool v (-9000)) raw.

Definition mask_sea (elev_range_min : option Q) (raw : grid cell)
  : grid cell :=
  match elev_range_min with
  | None => set_nan_where (fun v => Qltb v 0) raw
  | Some _ => raw
  end.

(** The clipping to the requested elevation range. *)
Definition clip_range (elev_range_min elev_range_max : option Q)
    (raw : grid cell) : grid cell :=
  let raw1 := match elev_range_min with
              | Some lo => set_nan_where (fun v => Qltb v lo) raw
              | None => raw
              end in
  match elev_range_max with
  | Some hi => set_nan_where (fun v => Qltb hi v) raw1
  | None => raw1
  end.

(** [np.nan_to_num(raw, nan=0.0)]. *)
Definition nan_to_num (raw : grid cell) : grid Q :=
  map (map (fun c : cell => match c with Some v => v | None => 0 end)) raw.

(** [smoothed[np.isnan(raw)] = np.nan]. *)
Definition restore_nan (smoothed : grid Q) (raw : grid cell) : grid cell :=
  zip_with
    (zip_with
       (fun (s : Q) (r : cell) =>
          match r with Some _ => Some s | None => None end))
    smoothed raw.

(** The valid cells of a grid, and [np.nanmin] / [np.nanmax] over them:
    NaN when there is none. *)
Definition valid_values (g : grid cell) : list Q :=
  flat_map (flat_map (fun c : cell =>
                        match c with Some v => [v] | None => [] end)) g.

Definition nanmin (g : grid cell) : cell :=
  match valid_values g with
  | [] => None
  | v :: vs => Some (fold_left Qmin vs v)
  end.

Definition nanmax (g : grid cell) : cell :=
  match valid_values g with
  | [] => None
  | v :: vs => Some (fold_left Qmax vs v)
  end.

(** What the constructor leaves in the object. *)
Record terrain : Type := {
  elevation : grid cell;
  min_elev : cell;
  max_elev : cell;
  base_elev : cell
}.

Section Init.

(** The two scipy routines the constructor calls are parameters:
    [zoom(raw, factor, order=1)] and [gaussian_filter(values, sigma)]. *)
Variable zoom : grid cell -> Q -> grid cell.
Variable gaussian_filter : grid Q -> Q -> grid Q.

(** The grid up to the statistics. *)
Definition prepare (raw : grid cell) (nodata : option Q) (downsample : Q)
    (smoothing_sigma : Q) (elev_range_min elev_range_max : option Q)
  : grid cell :=
  let raw1 := mask_nodata nodata raw in
  let raw2 := mask_sentinels raw1 in
  let raw3 := mask_sea elev_range_min raw2 in
  let raw4 := if Qeq_bool downsample 1 then raw3 else zoom raw3 downsample in
  let raw5 := clip_range elev_range_min elev_range_max raw4 in
  if Qltb 0 smoothing_sigma
  then restore_nan (gaussian_filter (nan_to_num raw5) smoothing_sigma) raw5
  else raw5.

Definition init (raw : grid cell) (nodata : option Q) (interval : Q)
    (base_elevation : option Q) (downsample : Q) (smoothing_sigma : Q)
    (elev_range_min elev_range_max : option Q) : terrain :=
  let elev := prepare raw nodata downsample smoothing_sigma
                elev_range_min elev_range_max in
  let lo := nanmin elev in
  {| elevation := elev;
     min_elev := lo;
     max_elev := nanmax elev;
     base_elev := match base_elevation with
                  | None => option_map
                              (fun m => Levels.auto_base m interval) lo
                  | Some b => Some b
                  end |}.

End Init.

(** A cell is no-data or not negative. *)
Definition not_negative (c : cell) : Prop :=
  match c with Some v => 0 <= v | None => True end.

Definition all_cells {A : Type} (P : A -> Prop) (g : grid A) : Prop :=
  Forall (Forall P) g.

(** What the constructor relies on in the scipy routines: linear
    interpolation and Gaussian smoothing weigh cells with weights that are
    not negative, so they keep a grid without negative cells that way. *)
Definition keeps_not_negative (zoom : grid cell -> Q -> grid cell) : Prop :=
  forall g f, all_cells not_negative g -> all_cells not_negative (zoom g f).

Definition keeps_not_negative_values
    (gaussian_filter : grid Q -> Q -> grid Q) : Prop :=
  forall g s, all_cells (fun v => 0 <= v) g ->
              all_cells (fun v => 0 <= v) (gaussian_filter g s).

(** Cell by cell, [out] has no-data wherever [raw] has no-data or a value
    below zero. *)
Definition below_zero_removed (raw out : grid cell) : Prop :=
  Forall2 (Forall2 (fun r c : cell =>
                      match r with
                      | Some v => v < 0 -> c = None
                      | None => c = None
                      end)) raw out.

(** A raster of two rows with a sentinel, a sea cell and two land cells, and
    a raster that lies below sea level throughout. *)
Definition sample_raster : grid cell :=
  [[Some (-9999); Some (-2)]; [Some 5; Some 12]].
Definition sunken_raster : grid cell := [[Some (-3)]].

(** Stand-ins for the scipy routines on a run that does not resample or
    smooth. *)
Definition no_zoom (g : grid cell) (_ : Q) : grid cell := g.
Definition no_filter (g : grid Q) (_ : Q) : grid Q := g.

End Generator.

(* ================================================================== *)
(** * ContourExtractor: the region mask of [extract_contours] *)
(* ================================================================== *)

Module Contours.

(** [valid & (data >= level)]: a comparison with NaN is false. *)
Definition above (level : Q) (c : cell) : bool :=
  match c with Some v => Qle_bool level v | None => false end.

Definition threshold (level : Q) (data : grid cell) : grid bool :=
  map (map (above level)) data.

(** [f] applied to every element together with its index, from [i] on. *)
Fixpoint mapi_from {A B : Type} (i : nat) (f : nat -> A -> B) (l : list A)
  : list B :=
  match l with
  | [] => []
  | x :: t => f i x :: mapi_from (S i) f t
  end.

(** Reading a cell of the array being dilated; a position outside the
    array reads as the border value, which [binary_fill_holes] sets to 1. *)
Definition read (cur : grid bool) (i j : nat) : bool :=
  nth j (nth i cur []) true.

Definition read_up (cur : grid bool) (i j : nat) : bool :=
  match i with O => true | S i' => read cur i' j end.

Definition read_left (cur : grid bool) (i j : nat) : bool :=
  match j with O => true | S j' => read cur i j' end.

(** A cell is hit by one dilation with the cross-shaped structuring element
    of [generate_binary_structure(2, 1)]: itself or one of its four
    neighbours is set. *)
Definition hit (cur : grid bool) (i j : nat) : bool :=
  read cur i j || read_up cur i j || read cur (S i) j
  || read_left cur i j || read cur i (S j).

(** One iteration of [binary_dilation] under a mask: only cells where the
    mask is set are modified. *)
Definition dilate_step (mask cur : grid bool) : grid bool :=
  mapi_from 0 (fun i row =>
                 mapi_from 0 (fun j (m : bool) =>
                                if m then hit cur i j else read cur i j) row)
            mask.

(** [np.array_equal] on boolean arrays. *)
Definition grid_eqb (a b : grid bool) : bool :=
  forall2b (forall2b Bool.eqb) a b.

(** [binary_dilation(tmp, structure, -1, mask, None, 1, origin)]: the step
    is repeated until the array does not change any more.  [None] when the
    fuel runs out first. *)
Fixpoint dilate_loop (fuel : nat) (mask cur : grid bool)
  : option (grid bool) :=
  match fuel with
  | O => None
  | S fuel' =>
      let next := dilate_step mask cur in
      if grid_eqb next cur then Some cur
      else dilate_loop fuel' mask next
  end.

Definition logical_not (g : grid bool) : grid bool := map (map negb) g.

Definition zeros_like (g : grid bool) : grid bool :=
  map (map (fun _ : bool => false)) g.

(** The number of cells of an array. *)
Definition cell_count {A : Type} (g : grid A) : nat := length (concat g).

(** [scipy.ndimage.binary_fill_holes(input)]: the complement of the input
    is flooded from the border of the array, and what the flood does not
    reach is set.  One step can add a cell at a time at worst, so one more
    step than there are cells always reaches the stable array. *)
Definition binary_fill_holes (input : grid bool) : option (grid bool) :=
  option_map logical_not
    (dilate_loop (S (cell_count input)) (logical_not input)
       (zeros_like input)).

(** [binary_mask] in [extract_contours(level)] after the hole filling;
    [elevation] is [self.elevation.data]. *)
Definition region_mask (elevation : grid cell) (nodata : option Q)
    (level : Q) : option (grid bool) :=
  let data := Generator.mask_nodata nodata elevation in
  binary_fill_holes (threshold level data).

(** [a] is a subset of [b]: the arrays have one shape and every cell set in
    [a] is set in [b]. *)
Definition implies (x y : bool) : Prop := x = true -> y = true.
Definition subset (a b : grid bool) : Prop := Forall2 (Forall2 implies) a b.

(** Two arrays have one shape. *)
Definition alike {A B : Type} (a : grid A) (b : grid B) : Prop :=
  Forall2 (Forall2 (fun _ _ => True)) a b.

(** The number of cells that are set. *)
Definition ones (g : grid bool) : nat :=
  length (filter (fun b : bool => b) (concat g)).

(** A ring of land around a pit, with a lower notch on the border. *)
Definition crater : grid cell :=
  [[Some 5%Q; Some 5%Q; Some 5%Q; Some 5%Q];
   [Some 5%Q; Some 1%Q; Some 9%Q; Some 5%Q];
   [Some 5%Q; None;     Some 9%Q; Some 3%Q];
   [Some 5%Q; Some 5%Q; Some 5%Q; Some 5%Q]].

End Contours.

(* ================================================================== *)
(** * TileAcquisitionService: [TileDownloader.download_one] *)
(* ================================================================== *)

Module Compositing.

(** [np.full((h, w), np.nan)]. *)
Definition full_nan (h w : nat) : grid cell := repeat (repeat None w) h.

(** The shape of an array. *)
Definition has_shape (h w : nat) (g : grid cell) : Prop :=
  length g = h /\ Forall (fun row => length row = w) g.

Definition has_shapeb (h w : nat) (g : grid cell) : bool :=
  (length g =? h)%nat && forallb (fun row => (length row =? w)%nat) g.

(** One cell of [mask = np.isnan(result) & ~np.isnan(layer)] followed by
    [result[mask] = layer[mask]]. *)
Definition fill_cell (result layer : cell) : cell :=
  if is_nan result && negb (is_nan layer) then layer else result.

Definition fill_gaps (result layer : grid cell) : grid cell :=
  zip_with (zip_with fill_cell) result layer.

(** [np.any(np.isnan(result))]. *)
Definition any_nan (g : grid cell) : bool := existsb (existsb is_nan) g.

(** The loop over [layers]: a failed source ([None]) is skipped, a decoded
    one fills the gaps, and the loop is left once no NaN remains.  The
    outcome is [None] when numpy raises, which it does for a layer whose
    shape is not that of [result]. *)
Fixpoint composite_loop (layers : list (option (grid cell)))
    (result : grid cell) : option (grid cell) :=
  match layers with
  | [] => Some result
  | None :: rest => composite_loop rest result
  | Some layer :: rest =>
      if has_shapeb 256 256 layer then
        let result' := fill_gaps result layer in
        if negb (any_nan result') then Some result'
        else composite_loop rest result'
      else None
  end.

Definition composite (layers : list (option (grid cell)))
  : option (grid cell) :=
  composite_loop layers (full_nan 256 256).

(** [download_one]: a readable cache entry is returned as it is; otherwise
    the grids fetched from [SOURCES], in that order, are composited.
    [cached] is the readable cache entry, if any; [fetched] holds, per
    source, the decoded grid or [None] for a failed request. *)
Definition download_one (cached : option (grid cell))
    (fetched : list (option (grid cell))) : option (grid cell) :=
  match cached with
  | Some g => Some g
  | None => composite fetched
  end.

(** The union of two grids: a cell of the first where it has data, else the
    cell of the second. *)
Definition first_valid (x y : cell) : cell :=
  match x with Some _ => x | None => y end.

Definition grid_union (a b : grid cell) : grid cell :=
  zip_with (zip_with first_valid) a b.

(** No cell is no-data in both grids (which also have the same shape). *)
Definition disjoint_nodata (a b : grid cell) : Prop :=
  Forall2 (Forall2 (fun x y => is_nan x && is_nan y = false)) a b.

Definition disjoint_nodatab (a b : grid cell) : bool :=
  forall2b (forall2b (fun x y => negb (is_nan x && is_nan y))) a b.

(** The decoded grids among the fetched layers, in priority order. *)
Definition present (layers : list (option (grid cell))) : list (grid cell) :=
  flat_map (fun o => match o with Some g => [g] | None => [] end) layers.

Definition well_shaped (layers : list (option (grid cell))) : Prop :=
  Forall (has_shape 256 256) (present layers).

(** A tile with its first row missing, and two complete tiles. *)
Definition tile_without_first_row : grid cell :=
  repeat None 256 :: repeat (repeat (Some 1%Q) 256) 255.
Definition flat_tile (q : Q) : grid cell := repeat (repeat (Some q) 256) 256.

End Compositing.

(* ================================================================== *)
(** * Binary64 numbers and the [math] module *)
(* ================================================================== *)

Module Binary64.

Import PrimFloat FloatOps SpecFloat.

(** Python's [int()] on a float: truncation towards zero; it raises
    ([None]) for an infinity and for NaN. *)
Definition py_int (x : float) : option Z :=
  match Prim2SF x with
  | S754_zero _ => Some 0%Z
  | S754_finite s m e =>
      let mag := if (0 <=? e)%Z then (Z.pos m * 2 ^ e)%Z
                 else (Z.pos m / 2 ^ (- e))%Z in
      Some (if s then (- mag)%Z else mag)
  | S754_infinity _ | S754_nan => None
  end.

(** The float of a Python [int], rounded to nearest. *)
Definition of_Z (z : Z) : float :=
  SF2Prim (binary_normalize prec emax z 0 false).

(** Python's [min(a, b)] and [max(a, b)] on two floats: [a] unless [b] is
    smaller, or greater; a NaN in the first place stays. *)
Definition py_min (a b : float) : float := if (b <? a)%float then b else a.
Definition py_max (a b : float) : float := if (a <? b)%float then b else a.

(** [a / b] on floats: Python raises ([None]) for a divisor that is zero. *)
Definition py_div (a b : float) : option float :=
  if is_zero b then None else Some (a / b)%float.

(** [2.0 ** zoom] for an [int] [zoom]: the power raises ([None]) when the
    result overflows. *)
Definition pow2 (zoom : Z) : option float :=
  if (1024 <=? zoom)%Z then None else Some (Z.ldexp 1%float zoom).

(** [math.pi]. *)
Definition pi : float := 0x1.921fb54442d18p+1%float.

(** A zero of either sign, or NaN: the values that are greater than no
    tolerance that is not negative. *)
Definition zeroish_spec (x : spec_float) : Prop :=
  match x with
  | S754_zero _ | S754_nan => True
  | _ => False
  end.

Definition zeroish (x : float) : Prop := zeroish_spec (Prim2SF x).

(** [b] is the negation of [a], or both are zeros or NaN. *)
Definition mirrored (a b : spec_float) : Prop :=
  b = SFopp a \/ (zeroish_spec a /\ zeroish_spec b).

(** A step that may raise, followed by the rest. *)
Definition bind {A B : Type} (o : option A) (f : A -> option B) : option B :=
  match o with Some a => f a | None => None end.

End Binary64.

Notation "'do' x <- o ; k" := (Binary64.bind o (fun x => k))
  (at level 10, x name, o at level 100, k at level 200, only parsing).

Module Math.

Import PrimFloat Binary64.

(** The functions of the C library that [math] calls.  Their values are
    not fixed by IEEE 754, so they are parameters of the model; what
    [math] does around them is fixed and is modelled below. *)
Record libm : Type := {
  c_tan : float -> float;
  c_cos : float -> float;
  c_log : float -> float;
  c_atan : float -> float;
  c_sinh : float -> float
}.

(** How [math] wraps a function of one argument: it raises ([None]) when
    the result is NaN for an argument that is not, and when the result is
    infinite for a finite argument. *)
Definition math_1 (f : float -> float) (x : float) : option float :=
  let r := f x in
  if (is_nan r && negb (is_nan x)) || (is_infinity r && is_finite x)
  then None else Some r.

Definition tan (M : libm) : float -> option float := math_1 (c_tan M).
Definition cos (M : libm) : float -> option float := math_1 (c_cos M).
Definition atan (M : libm) : float -> option float := math_1 (c_atan M).
Definition sinh (M : libm) : float -> option float := math_1 (c_sinh M).

(** [m_log], the function [math.log] wraps for one float argument: the
    library's logarithm for a positive finite number, and the values the
    wrapper then turns into an error for zero and for negative numbers. *)
Definition m_log (M : libm) (x : float) : float :=
  if is_finite x
  then if (0 <? x)%float then c_log M x
       else if (x =? 0)%float then neg_infinity else nan
  else if is_nan x then x
       else if (0 <? x)%float then x else nan.

Definition log (M : libm) : float -> option float := math_1 (m_log M).

(** [math.radians] and [math.degrees]: one multiplication by a constant. *)
Definition radians (x : float) : float := (x * (pi / 180))%float.
Definition degrees (x : float) : float := (x * (180 / pi))%float.

(** A function given by a table of its values; NaN elsewhere. *)
Fixpoint lookup (table : list (float * float)) (x : float) : float :=
  match table with
  | [] => nan
  | (k, v) :: rest => if (k =? x)%float then v else lookup rest x
  end.

End Math.

(* ================================================================== *)
(** * Ramer-Douglas-Peucker simplification: [_rdp_simplify] *)
(* ================================================================== *)

(** The recursion in exact arithmetic, for the properties that do not turn
    on rounding: which points the ends of the output are, and that points
    are only left out.  The computation on float64 rows follows in
    [RDP64]. *)
Module RDP.

Local Open Scope Q_scope.

(** A row of the [(n, 2)] coordinate array: [(row, col)]. *)
Definition point : Type := (Q * Q)%type.

Definition origin : point := (0, 0).

(** [a - b] on coordinate pairs. *)
Definition psub (a b : point) : point := (fst a - fst b, snd a - snd b).

(** [np.cross] of two plane vectors: [a0 * b1 - a1 * b0]. *)
Definition cross (a b : point) : Q := fst a * snd b - snd a * fst b.

(** The square of [np.linalg.norm]. *)
Definition norm_sq (d : point) : Q := fst d * fst d + snd d * snd d.

(** [points[0]] and [points[-1]]. *)
Definition first_point (points : list point) : point := nth 0 points origin.
Definition last_point (points : list point) : point := last points origin.

(** The array [dists], squared.  The source takes
    [norm(points - start)] when the chord has length zero and
    [abs(cross(d, start - points)) / norm] otherwise; both are non-negative,
    so their squares are ordered as they are and no square root is needed:
    [norm == 0] is [norm_sq == 0], and the square of the second form is
    [cross^2 / norm_sq]. *)
Definition dists_sq (points : list point) : list Q :=
  let start := first_point points in
  let d := psub (last_point points) start in
  if Qeq_bool (norm_sq d) 0
  then map (fun p => norm_sq (psub p start)) points
  else map (fun p => cross d (psub start p) * cross d (psub start p)
                     / norm_sq d) points.


(** [np.argmax]: the first index at which the maximum is found. *)
Fixpoint argmax (l : list Q) : nat :=
  match l with
  | [] => O
  | x :: t =>
      match t with
      | [] => O
      | _ :: _ => let j := argmax t in
                  if Qltb x (nth j t 0) then S j else O
      end
  end.

(** [dist > epsilon] for a distance given by its square [dsq]: a negative
    tolerance is exceeded by every distance. *)
Definition exceeds (dsq epsilon : Q) : bool :=
  Qltb epsilon 0 || Qltb (epsilon * epsilon) dsq.

(** [_rdp_simplify(points, epsilon)].  The recursion of the source is not
    structural (and does not end for some negative tolerances), so the model
    takes fuel and returns [None] when it runs out. *)
Fixpoint rdp_simplify (fuel : nat) (points : list point) (epsilon : Q)
  : option (list point) :=
  match fuel with
  | O => None
  | S fuel' =>
      if (length points <? 3)%nat then Some points
      else
        let start := first_point points in
        let end_ := last_point points in
        let dists := dists_sq points in
        let idx := argmax dists in
        if exceeds (nth idx dists 0) epsilon then
          match rdp_simplify fuel' (firstn (idx + 1) points) epsilon with
          | None => None
          | Some left_ =>
              match rdp_simplify fuel' (skipn idx points) epsilon with
              | None => None
              | Some right_ => Some (removelast left_ ++ right_)
              end
          end
        else Some [start; end_]
  end.

End RDP.

(* ================================================================== *)
(** * [_rdp_simplify] on the float64 rows it is called with *)
(* ================================================================== *)

(** The recursion of [_rdp_simplify] for any way of deciding whether and
    where a run is split. *)
Module Scheme.

Section Decision.

Variable A : Type.
Variable origin : A.

(** What one call decides from the array [dists] it computes:
    [Some idx], with [idx = np.argmax(dists)], when [dists[idx] > epsilon],
    and [None] when not. *)
Variable far : list A -> option nat.

Fixpoint rdp_with (fuel : nat) (points : list A) : option (list A) :=
  match fuel with
  | O => None
  | S fuel' =>
      if (length points <? 3)%nat then Some points
      else
        match far points with
        | Some idx =>
            match rdp_with fuel' (firstn (idx + 1) points) with
            | None => None
            | Some left_ =>
                match rdp_with fuel' (skipn idx points) with
                | None => None
                | Some right_ => Some (removelast left_ ++ right_)
                end
            end
        | None => Some [nth 0 points origin; last points origin]
        end
  end.

(** The index at which a call splits lies strictly between the ends. *)
Definition interior : Prop :=
  forall points idx,
    (3 <= length points)%nat -> far points = Some idx ->
    (0 < idx < length points - 1)%nat.

End Decision.

End Scheme.

Arguments Scheme.rdp_with {A}.
Arguments Scheme.interior {A}.

Module RDP64.

Import PrimFloat FloatOps.

(** A row of the [(n, 2)] float64 array. *)
Definition point : Type := (float * float)%type.

Definition origin : point := (0, 0)%float.

(** [a - b] on rows. *)
Definition psub (a b : point) : point :=
  (fst a - fst b, snd a - snd b)%float.

(** [np.cross] of two plane vectors: [a0 * b1 - a1 * b0]. *)
Definition cross (a b : point) : float :=
  (fst a * snd b - snd a * fst b)%float.

(** [np.linalg.norm] of a plane vector: the square root of the sum of the
    two squares. *)
Definition norm (v : point) : float :=
  sqrt (fst v * fst v + snd v * snd v).

(** [points[0]] and [points[-1]]. *)
Definition first_point (points : list point) : point := nth 0 points origin.
Definition last_point (points : list point) : point := last points origin.

(** The chord [d = end - start]. *)
Definition chord (points : list point) : point :=
  psub (last_point points) (first_point points).

(** The array [dists]. *)
Definition dists (points : list point) : list float :=
  let start := first_point points in
  let d := chord points in
  let n := norm d in
  if (n =? 0)%float
  then map (fun p => norm (psub p start)) points
  else map (fun p => (abs (cross d (psub start p)) / n)%float) points.

(** [np.argmax]: the scan keeps the first entry until it meets one that is
    not [<=] the entry kept, and it stops at a NaN. *)
Fixpoint argmax_from (mp : float) (max_ind i : nat) (l : list float) : nat :=
  match l with
  | [] => max_ind
  | x :: rest =>
      if is_nan mp then max_ind
      else if (x <=? mp)%float then argmax_from mp max_ind (S i) rest
           else argmax_from x i (S i) rest
  end.

Definition argmax (l : list float) : nat :=
  match l with
  | [] => O
  | x :: rest => argmax_from x 0 1 rest
  end.

(** [_rdp_simplify(points, epsilon)].  The recursion of the source is not
    structural, so the model takes fuel and returns [None] when it runs
    out. *)
Fixpoint rdp_simplify (fuel : nat) (points : list point) (epsilon : float)
  : option (list point) :=
  match fuel with
  | O => None
  | S fuel' =>
      if (length points <? 3)%nat then Some points
      else
        let start := first_point points in
        let end_ := last_point points in
        let dists := dists points in
        let idx := argmax dists in
        if (epsilon <? nth idx dists nan)%float then
          match rdp_simplify fuel' (firstn (idx + 1) points) epsilon with
          | None => None
          | Some left_ =>
              match rdp_simplify fuel' (skipn idx points) epsilon with
              | None => None
              | Some right_ => Some (removelast left_ ++ right_)
              end
          end
        else Some [start; end_]
  end.

(** The greatest computed distance, [dists[np.argmax(dists)]]. *)
Definition max_dist (points : list point) : float :=
  nth (argmax (dists points)) (dists points) nan.

(** The decision of one call: the index of the split when
    [dists[idx] > epsilon]. *)
Definition far (epsilon : float) (points : list point) : option nat :=
  if (epsilon <? max_dist points)%float
  then Some (argmax (dists points)) else None.


(** The number a finite float stands for. *)
Definition exact (x : float) : Q :=
  match FloatOps.Prim2SF x with
  | SpecFloat.S754_finite s m e =>
      ((if s then -1 else 1) * inject_Z (Z.pos m) * Qpower 2 e)%Q
  | _ => 0%Q
  end.









End RDP64.

(* ================================================================== *)
(** * TileCoordinateMapper: [deg2num] and [num2deg] *)
(* ================================================================== *)

Module Mapper.

Import PrimFloat Binary64.

(** [deg2num(lat, lon, zoom)].  The function has no check of its own: it
    fails ([None]) only where a step raises, which are the power, the two
    conversions [int()], the calls of [math] and the division by the
    cosine. *)
Definition deg2num (M : Math.libm) (lat lon : float) (zoom : Z)
  : option (Z * Z) :=
  let lat_r := Math.radians lat in
  do n <- pow2 zoom;
  do x <- py_int ((lon + 180) / 360 * n)%float;
  do t <- Math.tan M lat_r;
  do c <- Math.cos M lat_r;
  do s <- py_div 1 c;
  do l <- Math.log M (t + s)%float;
  do y <- py_int ((1 - l / pi) / 2 * n)%float;
  Some (x, y).

(** [num2deg(x, y, zoom)], giving [(lat, lon)]. *)
Definition num2deg (M : Math.libm) (x y : Z) (zoom : Z)
  : option (float * float) :=
  do n <- pow2 zoom;
  do q <- py_div (of_Z x) n;
  let lon := (q * 360 - 180)%float in
  do r <- py_div (2 * of_Z y)%float n;
  do s <- Math.sinh M (pi * (1 - r))%float;
  do a <- Math.atan M s;
  Some (Math.degrees a, lon).

End Mapper.

(* ================================================================== *)
(** * MosaicAssembler: [create_geotiff] *)
(* ================================================================== *)

Module Mosaic.

Definition TILE : Z := 256.

(** The length of [a[start:stop]] for an axis of length [dim] and indices
    that are not negative. *)
Definition slice_len (dim start stop : Z) : Z :=
  Z.max 0 (Z.min stop dim - Z.min start dim).

(** [range(a, a + n)]. *)
Definition zrange (a n : Z) : list Z :=
  map (fun k => (a + Z.of_nat k)%Z) (seq 0 (Z.to_nat n)).

(** The mosaic: [np.full((height, width), np.nan)] with every tile pasted
    at its offset.  [tile_data tx ty] is the entry of [download_all] for the
    tile, a 256 x 256 grid. *)
Definition tile_band (tile_data : Z -> Z -> grid cell) (x_min nx ty : Z)
  : grid cell :=
  map (fun r => flat_map (fun tx => nth r (tile_data tx ty) [])
                         (zrange x_min nx))
      (seq 0 (Z.to_nat TILE)).

Definition assemble (tile_data : Z -> Z -> grid cell)
    (x_min y_min nx ny : Z) : grid cell :=
  flat_map (tile_band tile_data x_min nx) (zrange y_min ny).

(** [len(elevation[~np.isnan(elevation)]) > 0]. *)
Definition has_valid (elevation : grid cell) : bool :=
  existsb (existsb (fun c => negb (is_nan c))) elevation.

(** [a[start:stop]] for indices that are not negative. *)
Definition slice {A : Type} (start stop : Z) (l : list A) : list A :=
  skipn (Z.to_nat start) (firstn (Z.to_nat stop) l).

Import PrimFloat Binary64.

(** The clamp of one axis:
    [start = max(0, start); end = min(dim, max(end, start + 1))]. *)
Definition clamp (dim start0 end0 : Z) : Z * Z :=
  let start := Z.max 0 start0 in
  (start, Z.min dim (Z.max end0 (start + 1))).

(** The pixel window of the crop and the bounds computed for it. *)
Record window : Type := {
  col_start : Z;
  col_end : Z;
  row_start : Z;
  row_end : Z;
  west : float;
  south : float;
  east : float;
  north : float
}.

(** The crop computation of [create_geotiff], from the request (already
    ordered), the bounds of the mosaic and its size in pixels. *)
Definition crop_window (lat_min lat_max lon_min lon_max : float)
    (lat_max_actual lon_min_actual lat_min_actual lon_max_actual : float)
    (height width : Z) : option window :=
  do deg_per_px_lon <- py_div (lon_max_actual - lon_min_actual) (of_Z width);
  do deg_per_px_lat <- py_div (lat_max_actual - lat_min_actual) (of_Z height);
  do q1 <- py_div (lon_min - lon_min_actual) deg_per_px_lon;
  do col_start0 <- py_int q1;
  do q2 <- py_div (lon_max - lon_min_actual) deg_per_px_lon;
  do col_end0 <- py_int q2;
  do q3 <- py_div (lat_max_actual - lat_max) deg_per_px_lat;
  do row_start0 <- py_int q3;
  do q4 <- py_div (lat_max_actual - lat_min) deg_per_px_lat;
  do row_end0 <- py_int q4;
  let '(col_start1, col_end1) := clamp width col_start0 col_end0 in
  let '(row_start1, row_end1) := clamp height row_start0 row_end0 in
  let height' := slice_len height row_start1 row_end1 in
  let width' := slice_len width col_start1 col_end1 in
  let lon_min_actual' :=
    (lon_min_actual + of_Z col_start1 * deg_per_px_lon)%float in
  let lon_max_actual' :=
    (lon_min_actual' + of_Z width' * deg_per_px_lon)%float in
  let lat_max_actual' :=
    (lat_max_actual - of_Z row_start1 * deg_per_px_lat)%float in
  let lat_min_actual' :=
    (lat_max_actual' - of_Z height' * deg_per_px_lat)%float in
  Some {| col_start := col_start1; col_end := col_end1;
          row_start := row_start1; row_end := row_end1;
          west := lon_min_actual'; south := lat_min_actual';
          east := lon_max_actual'; north := lat_max_actual' |}.

(** [elevation[row_start:row_end, col_start:col_end]]. *)
Definition crop (elevation : grid cell) (w : window) : grid cell :=
  map (slice (col_start w) (col_end w))
      (slice (row_start w) (row_end w) elevation).

(** The number of elements of an array. *)
Definition size (a : grid cell) : nat := length (concat a).

(** What [create_geotiff] does: it raises, returns [False] or writes a
    raster file and returns [True]. *)
Inductive outcome : Type :=
| Raised
| ReturnedFalse
| Written (raster : grid cell) (w : window).

(** [create_geotiff].  [confirmed] stands for [skip_confirm] or the answer
    y at the prompt.  [np.full] raises for a negative dimension, and
    [np.nanmin], called on the cropped array before the file is written,
    raises for an array without elements (for an array of NaN only it
    warns and returns NaN). *)
Definition create_geotiff (M : Math.libm)
    (lat_min lat_max lon_min lon_max : float) (zoom : Z)
    (confirmed : bool) (tile_data : Z -> Z -> grid cell) : outcome :=
  let lat_lo := py_min lat_min lat_max in
  let lat_hi := py_max lat_min lat_max in
  let lon_lo := py_min lon_min lon_max in
  let lon_hi := py_max lon_min lon_max in
  match Mapper.deg2num M lat_hi lon_lo zoom,
        Mapper.deg2num M lat_lo lon_hi zoom with
  | Some (x_min, y_min), Some (x_max, y_max) =>
      let nx := (x_max - x_min + 1)%Z in
      let ny := (y_max - y_min + 1)%Z in
      if ((nx * ny >? 100)%Z && negb confirmed)%bool then ReturnedFalse
      else if ((ny <? 0)%Z || (nx <? 0)%Z)%bool then Raised
      else
        let height := (ny * TILE)%Z in
        let width := (nx * TILE)%Z in
        let elevation := assemble tile_data x_min y_min nx ny in
        if negb (has_valid elevation) then ReturnedFalse
        else
          match Mapper.num2deg M x_min y_min zoom,
                Mapper.num2deg M (x_max + 1) (y_max + 1) zoom with
          | Some (lat_max_actual, lon_min_actual),
            Some (lat_min_actual, lon_max_actual) =>
              match crop_window lat_lo lat_hi lon_lo lon_hi
                      lat_max_actual lon_min_actual
                      lat_min_actual lon_max_actual height width with
              | Some w =>
                  let cropped := crop elevation w in
                  if (size cropped =? 0)%nat then Raised
                  else Written cropped w
              | None => Raised
              end
          | _, _ => Raised
          end
  | _, _ => Raised
  end.

(** Tiles for the examples: data everywhere, and data in the top left
    pixel only. *)
Definition land_tile : grid cell := repeat (repeat (Some 1%Q) 256) 256.
Definition corner_only_tile : grid cell :=
  (Some 1%Q :: repeat None 255) :: repeat (repeat None 256) 255.

End Mosaic.

(** ** Values of the C library for three requests *)

Module Cases.

Import PrimFloat.

(** The values [math] returns (binary64, as glibc computes them) at the
    arguments that occur in the runs below; the tables hold NaN at every
    other argument. *)

(** The numbers 38.15183740300677, 35.29, 139.48 and 85.05 as Python
    reads them. *)
Definition lat_tile_edge : float := 0x1.3136f68741ca1p+5%float.
Definition lat_35_29 : float := 0x1.1a51eb851eb85p+5%float.
Definition lon_139_48 : float := 0x1.16f5c28f5c28fp+7%float.
Definition lat_85_05 : float := 0x1.5433333333333p+6%float.

(** The point 38.15183740300677 N, 139.75 E at zoom 14, in the tile
    (14552, 6310). *)
Definition libm_tile_edge : Math.libm :=
  {| Math.c_tan :=
       Math.lookup [(0x1.54ed97649e0c5p-1, 0x1.92353471ff520p-1)]%float;
     Math.c_cos :=
       Math.lookup [(0x1.54ed97649e0c5p-1, 0x1.929fef04a975bp-1)]%float;
     Math.c_log :=
       Math.lookup [(0x1.0752e9510e47ap+1, 0x1.71555f5c51dedp-1)]%float;
     Math.c_sinh :=
       Math.lookup [(0x1.7187a352fa670p-1, 0x1.927522006c3a8p-1);
                    (0x1.71555f5c51debp-1, 0x1.92353471ff520p-1)]%float;
     Math.c_atan :=
       Math.lookup [(0x1.927522006c3a8p-1, 0x1.55151d41fe15ep-1);
                    (0x1.92353471ff520p-1, 0x1.54ed97649e0c5p-1)]%float |}.

(** The point 35.29 N, 139.48 E at zoom 14, in the tile (14539, 6473). *)
Definition libm_bay : Math.libm :=
  {| Math.c_tan :=
       Math.lookup [(0x1.3b5abe5695911p-1, 0x1.6a61cefad904fp-1)]%float;
     Math.c_cos :=
       Math.lookup [(0x1.3b5abe5695911p-1, 0x1.a1ea00fd7e041p-1)]%float;
     Math.c_log :=
       Math.lookup [(0x1.eed32b4e6ddd4p+0, 0x1.516beb1a38c2fp-1)]%float;
     Math.c_sinh :=
       Math.lookup [(0x1.51865d45ab95ap-1, 0x1.6a8235d0fdd84p-1);
                    (0x1.5154194f030d4p-1, 0x1.6a44a0c4b43f8p-1)]%float;
     Math.c_atan :=
       Math.lookup [(0x1.6a8235d0fdd84p-1, 0x1.3b705416bf8cfp-1);
                    (0x1.6a44a0c4b43f8p-1, 0x1.3b474cd2c4648p-1)]%float |}.

(** The latitude 86 degrees. *)
Definition libm_86 : Math.libm :=
  {| Math.c_tan :=
       Math.lookup [(0x1.80406ea1f0345p+0, 0x1.c99f0ed772d54p+3)]%float;
     Math.c_cos :=
       Math.lookup [(0x1.80406ea1f0345p+0, 0x1.1db8f6d6a5123p-4)]%float;
     Math.c_log :=
       Math.lookup [(0x1.ca2e17ec21864p+4, 0x1.ad65f11046072p+1)]%float;
     Math.c_sinh := Math.lookup [];
     Math.c_atan := Math.lookup [] |}.

End Cases.

(* ================================================================== *)
(** * Further parts of the two programs *)
(* ================================================================== *)

(** ** The pixel value as a signed number *)

Module Encoding.

Local Open Scope Z_scope.

(** A 24-bit value read as a two's complement number. *)
Definition signed24 (x : Z) : Z :=
  if x <? 8388608 then x else x - 16777216.

End Encoding.

(** ** [TileDownloader.download_all] *)

Module Batch.

(** A tile is addressed by [(x, y)]. *)
Definition tile_key : Type := (Z * Z)%type.

Definition key_eqb (a b : tile_key) : bool :=
  (fst a =? fst b)%Z && (snd a =? snd b)%Z.

(** The dictionary [results], in insertion order. *)
Definition results : Type := list (tile_key * grid cell).

(** [results[k] = v]. *)
Fixpoint dict_set (k : tile_key) (v : grid cell) (d : results) : results :=
  match d with
  | [] => [(k, v)]
  | (k', v') :: rest =>
      if key_eqb k k' then (k, v) :: rest
      else (k', v') :: dict_set k v rest
  end.

(** [results.get(k)]. *)
Fixpoint dict_get (k : tile_key) (d : results) : option (grid cell) :=
  match d with
  | [] => None
  | (k', v') :: rest => if key_eqb k k' then Some v' else dict_get k rest
  end.

(** The entry stored for one finished future: the grid [download_one]
    returned, or an all-NaN grid when [f.result()] raised. *)
Definition entry (outcome : option (grid cell)) : grid cell :=
  match outcome with
  | Some data => data
  | None => Compositing.full_nan 256 256
  end.

(** [download_all].  [download_one_at k] is what the call of [download_one]
    for the tile [k] gives ([None] when it raises); [completed] lists the
    tiles in the order in which [as_completed] yields their futures. *)
Definition download_all (download_one_at : tile_key -> option (grid cell))
    (completed : list tile_key) : results :=
  fold_left (fun res k => dict_set k (entry (download_one_at k)) res)
            completed [].

(** [download_one] together with the cache file of the tile: the grid that
    is returned is the content of the cache file afterwards, whether it was
    read from it or saved to it. *)
Definition download_one_cached (cache : option (grid cell))
    (fetched : list (option (grid cell)))
  : option (grid cell * option (grid cell)) :=
  option_map (fun r => (r, Some r)) (Compositing.download_one cache fetched).

(** The list [tiles] that [create_geotiff] builds: rows from [y_min] to
    [y_max], in each row the columns from [x_min] to [x_max]. *)
Definition tile_list (x_min y_min x_max y_max : Z) : list tile_key :=
  flat_map (fun ty => map (fun tx => (tx, ty))
                          (Mosaic.zrange x_min (x_max + 1 - x_min)))
           (Mosaic.zrange y_min (y_max + 1 - y_min)).

End Batch.

(** ** The raster file between the two programs *)

Module RasterFile.

(** [out = np.where(np.isnan(elevation), -9999.0, elevation)], the band
    [create_geotiff] writes; the file declares [nodata=-9999]. *)
Definition write_band (elevation : grid cell) : grid Q :=
  map (map (fun c : cell => match c with Some v => v | None => (-9999)%Q end))
      elevation.

Definition file_nodata : option Q := Some (-9999)%Q.

(** [src.read(1)]: every cell of the band is a number. *)
Definition read_band (band : grid Q) : grid cell :=
  map (map (fun v : Q => Some v)) band.

End RasterFile.

(** ** The layers of [generate_svg] *)

Module Layers.

Local Open Scope Q_scope.

(** [~np.isnan(data)]. *)
Definition valid (c : cell) : bool :=
  match c with Some _ => true | None => false end.

(** A cell is no-data or lies within the bounds that are given. *)
Definition in_range (lo hi : option Q) (c : cell) : Prop :=
  match c with
  | None => True
  | Some v =>
      match lo with Some l => l <= v | None => True end /\
      match hi with Some h => v <= h | None => True end
  end.

(** Python's [max(a, b)] and [min(a, b)] on two numbers: [a] unless [b] is
    greater, or smaller. *)
Definition py_max (a b : Q) : Q := if Qltb a b then b else a.
Definition py_min (a b : Q) : Q := if Qltb b a then b else a.

(** [CMAP_MAX = 0.75 if colormap == 'terrain' else 1.0]. *)
Definition CMAP_MAX (is_terrain : bool) : Q :=
  if is_terrain then 0.75 else 1.

(** The position of a level in the colour map. *)
Definition norm_value (is_terrain : bool) (min_elev max_elev level : Q) : Q :=
  let nv := if Qltb min_elev max_elev
            then (level - min_elev) / (max_elev - min_elev)
            else 0.5 in
  py_max 0 (py_min (CMAP_MAX is_terrain) nv).

End Layers.

(** ** Holes and open background in [binary_fill_holes] *)

Module Holes.

(** The cell at row [i] and column [j], if the array has one. *)
Definition cell_at {A : Type} (g : grid A) (i j : nat) : option A :=
  match nth_error g i with
  | Some row => nth_error row j
  | None => None
  end.

(** [(i', j')] is one of the four neighbours of [(i, j)] in the
    cross-shaped structuring element. *)
Definition adjacent (i j i' j' : nat) : Prop :=
  (i' = S i /\ j' = j) \/ (i = S i' /\ j' = j) \/
  (i' = i /\ j' = S j) \/ (i' = i /\ j = S j').

(** A position on the border of the array: a neighbour lies outside. *)
Definition on_border {A : Type} (g : grid A) (i j : nat) : Prop :=
  i = 0%nat \/ j = 0%nat \/
  cell_at g (S i) j = None \/ cell_at g i (S j) = None.

(** A background cell that is joined to the border of the array by
    background cells. *)
Inductive open_to_border (input : grid bool) : nat -> nat -> Prop :=
| open_at_border (i j : nat) :
    cell_at input i j = Some false -> on_border input i j ->
    open_to_border input i j
| open_next (i j i' j' : nat) :
    cell_at input i j = Some false -> adjacent i j i' j' ->
    open_to_border input i' j' ->
    open_to_border input i j.

(** A set of background cells, given by its indicator, that is closed in:
    none of its cells lies on the border, and every neighbour of a cell of
    the set is in the set or is set in the input. *)
Definition enclosed (input : grid bool) (hole : nat -> nat -> bool) : Prop :=
  forall i j, hole i j = true ->
    cell_at input i j = Some false /\
    ~ on_border input i j /\
    (forall i' j', adjacent i j i' j' ->
       hole i' j' = true \/ cell_at input i' j' = Some true).

(** The background without the cells of [hole]. *)
Definition background_without (hole : nat -> nat -> bool)
    (input : grid bool) : grid bool :=
  Contours.mapi_from 0
    (fun i row =>
       Contours.mapi_from 0
         (fun j (b : bool) => negb b && negb (hole i j)) row)
    input.

(** The pit of [Contours.crater] below the level 4: two cells. *)
Definition crater_pit (i j : nat) : bool :=
  (j =? 1)%nat && ((i =? 1)%nat || (i =? 2)%nat).

End Holes.

(** ** The contours [extract_contours] returns *)

Module Simplify.

Import PrimFloat RDP64.

(** [l] is [m] with some of its elements left out. *)
Inductive subseq {A : Type} : list A -> list A -> Prop :=
| subseq_nil : subseq [] []
| subseq_skip (x : A) (l m : list A) : subseq l m -> subseq l (x :: m)
| subseq_keep (x : A) (l m : list A) : subseq l m -> subseq (x :: l) (x :: m).

(** The loop over [raw_contours]: a contour of fewer than 4 points is
    skipped, the others are simplified and kept when 3 points or more are
    left. *)
Fixpoint simplify_loop (fuel : nat) (raw_contours : list (list point))
    (simplify_eps : float) : option (list (list point)) :=
  match raw_contours with
  | [] => Some []
  | c :: rest =>
      if (length c <? 4)%nat then simplify_loop fuel rest simplify_eps
      else
        match rdp_simplify fuel c simplify_eps with
        | None => None
        | Some s =>
            option_map
              (fun simplified =>
                 if (3 <=? length s)%nat then s :: simplified
                 else simplified)
              (simplify_loop fuel rest simplify_eps)
        end
  end.

(** The end of [extract_contours], from the contours [find_contours] gave:
    those of fewer than 10 points are dropped as noise first. *)
Definition simplify_contours (fuel : nat) (raw_contours : list (list point))
    (simplify_eps : float) : option (list (list point)) :=
  simplify_loop fuel
    (filter (fun c => (10 <=? length c)%nat) raw_contours) simplify_eps.

(** A square traced in twelve points, closed, and a speck of ten points
    that stay within half a pixel of its first point. *)
Definition square_contour : list point :=
  [(0, 0); (0, 1); (0, 2); (0, 3); (1, 3); (2, 3); (3, 3); (3, 2); (3, 1);
   (3, 0); (2, 0); (1, 0); (0, 0)]%float.

Definition speck_contour : list point :=
  [(0, 0); (0, 0.5); (0, 0.5); (0.5, 0.5); (0.5, 0.5); (0.5, 0); (0.5, 0);
   (0, 0); (0, 0); (0, 0)]%float.

End Simplify.

(** ** The zoom of the image tiles of [_ensure_satellite_image] *)

Module Imagery.

Local Open Scope R_scope.

(** [math.radians]. *)
Definition radians (d : R) : R := d * PI / 180.

(** The metres one pixel of the DEM spans, from the bounds of the file and
    the width [orig_w] of its raster. *)
Definition m_per_dem_px (left_ right_ top_ bottom_ : R) (orig_w : Z) : R :=
  (right_ - left_) / IZR orig_w * 111320
  * cos (radians ((top_ + bottom_) / 2)).

(** The metres one pixel of a tile spans at zoom [z]. *)
Definition m_per_tile_px (top_ bottom_ : R) (z : Z) : R :=
  360 / IZR (2 ^ z) * 111320 * cos (radians ((top_ + bottom_) / 2)) / 256.

(** The [for z in ...] loop: the first [z] whose tile pixel is no larger
    than the pixel of the DEM, and [zoom] as it was when there is none. *)
Fixpoint search_zoom (zs : list Z) (top_ bottom_ m_dem : R) (zoom : Z) : Z :=
  match zs with
  | [] => zoom
  | z :: rest =>
      if Rle_dec (m_per_tile_px top_ bottom_ z) m_dem then z
      else search_zoom rest top_ bottom_ m_dem zoom
  end.

(** The zoom at which the satellite tiles are fetched when none is set;
    [None] for a raster of width 0, where [lon_span / orig_w] raises. *)
Definition satellite_zoom (left_ right_ top_ bottom_ : R) (orig_w : Z)
  : option Z :=
  if (orig_w =? 0)%Z then None
  else
    let m_dem := m_per_dem_px left_ right_ top_ bottom_ orig_w in
    let zoom := search_zoom (Mosaic.zrange 10 8) top_ bottom_ m_dem 10 in
    Some (Z.min (zoom + 1) 17).

End Imagery.

(** ** The command line of [download_dem.py] *)

Module CommandLine.

Import PrimFloat.

(** The text of an argument, character by character. *)
Definition text : Type := list Ascii.ascii.

(** The character [-]. *)
Definition hyphen : Ascii.ascii := Ascii.ascii_of_nat 45.

(** [s.split(sep)]: the pieces between the occurrences of [sep]. *)
Fixpoint split (sep : Ascii.ascii) (s : text) : list text :=
  match s with
  | [] => [[]]
  | c :: rest =>
      if Ascii.eqb c sep then [] :: split sep rest
      else match split sep rest with
           | [] => [[c]]
           | w :: ws => (c :: w) :: ws
           end
  end.

(** [sorted] on two floats: they are exchanged when the second is less
    than the first, and left as they are when it is not, as for a NaN. *)
Definition sorted_2 (a b : float) : float * float :=
  if (b <? a)%float then (b, a) else (a, b).

(** [lo, hi = sorted(float(v) for v in arg.split('-'))] under
    [try ... except Exception]: [None] when a piece is no number or when
    there are not exactly two pieces.  [float] is Python's conversion of a
    text to a number, [None] where it raises. *)
Definition parse_range (float : text -> option PrimFloat.float) (arg : text)
  : option (PrimFloat.float * PrimFloat.float) :=
  match map float (split hyphen arg) with
  | [Some a; Some b] => Some (sorted_2 a b)
  | _ => None
  end.

(** The texts [1], [2] and [2-1], and a conversion that knows the first
    two. *)
Definition text_1 : text := [Ascii.ascii_of_nat 49].
Definition text_2 : text := [Ascii.ascii_of_nat 50].
Definition text_2_1 : text :=
  [Ascii.ascii_of_nat 50; hyphen; Ascii.ascii_of_nat 49].

Definition text_eqb (a b : text) : bool := forall2b Ascii.eqb a b.

Definition float_1_2 (t : text) : option float :=
  if text_eqb t text_1 then Some 1%float
  else if text_eqb t text_2 then Some 2%float else None.

End CommandLine.

(* ================================================================== *)
(** * Theorems *)
(* ================================================================== *)

Section Comparisons.

Local Open Scope Q_scope.

Lemma Qltb_lt (x y : Q) : Qltb x y = true <-> x < y.
Proof.
  unfold Qltb. rewrite negb_true_iff. split.
  - intros H. apply Qnot_le_lt. intros Hle.
    apply Qle_bool_iff in Hle. congruence.
  - intros H. destruct (Qle_bool y x) eqn:E; [|reflexivity].
    apply Qle_bool_iff in E. lra.
Qed.

Lemma Qltb_ge (x y : Q) : Qltb x y = false <-> y <= x.
Proof.
  unfold Qltb. rewrite negb_false_iff. apply Qle_bool_iff.
Qed.

End Comparisons.

Module FloatFacts.
Import PrimFloat FloatOps SpecFloat FloatAxioms.
Import Binary64.

(** ** Comparison *)

Lemma SFcompare_antisym (x y : spec_float) :
  SFcompare y x = option_map CompOpp (SFcompare x y).
Proof.
  destruct x as [sx|sx| |sx mx ex], y as [sy|sy| |sy my ey]; simpl;
    try reflexivity;
    try (destruct sx; reflexivity);
    try (destruct sy; reflexivity);
    try (destruct sx, sy; reflexivity).
  destruct sx, sy; try reflexivity.
  - rewrite (Z.compare_antisym ey ex).
    destruct (ey ?= ex)%Z; simpl; try reflexivity.
    change (Pos.compare_cont Eq my mx) with (Pos.compare my mx).
    change (Pos.compare_cont Eq mx my) with (Pos.compare mx my).
    rewrite (Pos.compare_antisym my mx).
    destruct (my ?= mx)%positive; reflexivity.
  - rewrite (Z.compare_antisym ey ex).
    destruct (ey ?= ex)%Z; simpl; try reflexivity.
    change (Pos.compare_cont Eq my mx) with (Pos.compare my mx).
    change (Pos.compare_cont Eq mx my) with (Pos.compare mx my).
    rewrite (Pos.compare_antisym my mx).
    destruct (my ?= mx)%positive; reflexivity.
Qed.

Lemma SFcompare_none (x y : spec_float) :
  SFcompare x y = None -> x = S754_nan \/ y = S754_nan.
Proof.
  destruct x as [sx|sx| |sx mx ex], y as [sy|sy| |sy my ey]; simpl;
    try (intros _; left; reflexivity);
    try (intros _; right; reflexivity);
    try discriminate;
    try (destruct sx; discriminate);
    try (destruct sy; discriminate);
    try (destruct sx, sy; discriminate).
Qed.

Lemma ltb_asym (a b : float) :
  (a <? b)%float = true -> (b <? a)%float = false.
Proof.
  rewrite !ltb_spec. unfold SFltb.
  rewrite (SFcompare_antisym (Prim2SF a) (Prim2SF b)).
  destruct (SFcompare (Prim2SF a) (Prim2SF b)) as [[| |]|];
    try discriminate. reflexivity.
Qed.

Lemma ltb_leb (a b : float) :
  (a <? b)%float = true -> (a <=? b)%float = true.
Proof.
  rewrite ltb_spec, leb_spec. unfold SFltb, SFleb.
  destruct (SFcompare (Prim2SF a) (Prim2SF b)) as [[| |]|];
    try discriminate. reflexivity.
Qed.

Lemma is_nan_false (x : float) :
  is_nan x = false -> Prim2SF x <> S754_nan.
Proof.
  unfold is_nan. rewrite eqb_spec. unfold SFeqb.
  intros H E. rewrite E in H. simpl in H. discriminate.
Qed.

(** Two floats that are not NaN are comparable. *)
Lemma leb_total (a b : float) :
  is_nan a = false -> is_nan b = false -> (b <? a)%float = false ->
  (a <=? b)%float = true.
Proof.
  intros Ha Hb. apply is_nan_false in Ha, Hb.
  rewrite ltb_spec, leb_spec. unfold SFltb, SFleb.
  rewrite (SFcompare_antisym (Prim2SF a) (Prim2SF b)).
  destruct (SFcompare (Prim2SF a) (Prim2SF b)) as [[| |]|] eqn:E;
    simpl; try reflexivity; try discriminate.
  destruct (SFcompare_none _ _ E); contradiction.
Qed.



(** ** Zeros and NaN under the operations *)

Lemma round_aux_opp (s : bool) (m e : Z) (l : location) :
  binary_round_aux prec emax (negb s) m e l
  = SFopp (binary_round_aux prec emax s m e l).
Proof.
  unfold binary_round_aux.
  destruct (shr_fexp prec emax m e l) as [mrs' e'].
  destruct (shr_fexp prec emax _ e' loc_Exact) as [mrs'' e''].
  destruct (shr_m mrs''); try reflexivity.
  destruct (e'' <=? emax - prec)%Z; reflexivity.
Qed.

Lemma SFmul_comm (x y : spec_float) :
  SFmul prec emax x y = SFmul prec emax y x.
Proof.
  destruct x as [sx|sx| |sx mx ex], y as [sy|sy| |sy my ey]; simpl;
    try reflexivity; try (rewrite xorb_comm; reflexivity).
  rewrite xorb_comm, Pos.mul_comm, Z.add_comm. reflexivity.
Qed.

Lemma SFmul_opp_r (x y : spec_float) :
  SFmul prec emax x (SFopp y) = SFopp (SFmul prec emax x y).
Proof.
  destruct x as [sx|sx| |sx mx ex], y as [sy|sy| |sy my ey]; simpl;
    try reflexivity;
    try (destruct sx, sy; reflexivity).
  rewrite <- round_aux_opp. f_equal. destruct sx, sy; reflexivity.
Qed.

Lemma SFsub_diag (x : spec_float) : zeroish_spec (SFsub prec emax x x).
Proof.
  destruct x as [sx|sx| |sx mx ex]; simpl.
  - destruct sx; exact I.
  - destruct sx; exact I.
  - exact I.
  - rewrite Z.sub_diag. exact I.
Qed.

Lemma binary_normalize_opp (m e : Z) :
  m <> 0%Z ->
  binary_normalize prec emax (- m) e false
  = SFopp (binary_normalize prec emax m e false).
Proof.
  intros Hm. destruct m as [|p|p]; [congruence| |]; simpl.
  - unfold binary_round.
    destruct (shl_align p e _) as [mz ez].
    apply (round_aux_opp false).
  - unfold binary_round.
    destruct (shl_align p e _) as [mz ez].
    apply (round_aux_opp true).
Qed.

(** [y - x] is the negation of [x - y], but for the sign of a zero. *)
Lemma SFsub_swap (x y : spec_float) :
  mirrored (SFsub prec emax x y) (SFsub prec emax y x).
Proof.
  destruct x as [sx|sx| |sx mx ex], y as [sy|sy| |sy my ey]; simpl;
    try (right; split; exact I);
    try (left; reflexivity);
    try (destruct sx, sy; simpl;
         (right; split; exact I) || (left; reflexivity)).
  change (IntDef.Z.min ey ex) with (Z.min ey ex).
  change (IntDef.Z.min ex ey) with (Z.min ex ey).
  rewrite (Z.min_comm ey ex).
  set (a := cond_Zopp sx (Z.pos (fst (shl_align mx ex (Z.min ex ey))))).
  set (b := cond_Zopp sy (Z.pos (fst (shl_align my ey (Z.min ex ey))))).
  destruct (Z.eq_dec (a - b) 0) as [E|NE].
  - right. rewrite E. replace (b - a)%Z with 0%Z by lia. split; exact I.
  - left. replace (b - a)%Z with (- (a - b))%Z by lia.
    apply binary_normalize_opp, NE.
Qed.

Lemma SFmul_zeroish_l (x y : spec_float) :
  zeroish_spec x -> zeroish_spec (SFmul prec emax x y).
Proof.
  destruct x as [sx|sx| |sx mx ex], y as [sy|sy| |sy my ey]; simpl;
    intros H; try exact I; try contradiction.
Qed.

Lemma SFmul_zeroish_r (x y : spec_float) :
  zeroish_spec y -> zeroish_spec (SFmul prec emax x y).
Proof. rewrite SFmul_comm. apply SFmul_zeroish_l. Qed.

Lemma SFadd_zeroish (x y : spec_float) :
  zeroish_spec x -> zeroish_spec y -> zeroish_spec (SFadd prec emax x y).
Proof.
  destruct x as [sx|sx| |sx mx ex], y as [sy|sy| |sy my ey]; simpl;
    intros Hx Hy; try exact I; try contradiction.
  destruct sx, sy; exact I.
Qed.

Lemma SFsub_zeroish (x y : spec_float) :
  zeroish_spec x -> zeroish_spec y -> zeroish_spec (SFsub prec emax x y).
Proof.
  destruct x as [sx|sx| |sx mx ex], y as [sy|sy| |sy my ey]; simpl;
    intros Hx Hy; try exact I; try contradiction.
  destruct sx, sy; exact I.
Qed.

Lemma SFabs_zeroish (x : spec_float) :
  zeroish_spec x -> zeroish_spec (SFabs x).
Proof. destruct x; simpl; intros H; try exact I; contradiction. Qed.

Lemma SFdiv_zeroish (x y : spec_float) :
  zeroish_spec x -> zeroish_spec (SFdiv prec emax x y).
Proof.
  destruct x as [sx|sx| |sx mx ex], y as [sy|sy| |sy my ey]; simpl;
    intros H; try exact I; try contradiction.
Qed.

Lemma SFsqrt_zeroish (x : spec_float) :
  zeroish_spec x -> zeroish_spec (SFsqrt prec emax x).
Proof. destruct x; simpl; intros H; try exact I; contradiction. Qed.

Lemma SFeqb_zero (x : spec_float) :
  SFeqb x (S754_zero false) = true -> zeroish_spec x.
Proof.
  unfold SFeqb. destruct x as [sx|sx| |sx mx ex]; simpl;
    try (intros _; exact I); try discriminate.
  - destruct sx; discriminate.
  - destruct sx; discriminate.
Qed.

(** A tolerance that is not negative is not below a zero or a NaN. *)
Lemma SFltb_zeroish (e z : spec_float) :
  SFltb e (S754_zero false) = false -> zeroish_spec z -> SFltb e z = false.
Proof.
  unfold SFltb.
  destruct e as [se|se| |se me ee], z as [sz|sz| |sz mz ez]; simpl;
    intros H Hz; try reflexivity; try contradiction; try exact H.
Qed.

Lemma mul_zeroish_l (x y : float) : zeroish x -> zeroish (x * y).
Proof. unfold zeroish. rewrite mul_spec. apply SFmul_zeroish_l. Qed.

Lemma mul_zeroish_r (x y : float) : zeroish y -> zeroish (x * y).
Proof. unfold zeroish. rewrite mul_spec. apply SFmul_zeroish_r. Qed.

Lemma add_zeroish (x y : float) : zeroish x -> zeroish y -> zeroish (x + y).
Proof. unfold zeroish. rewrite add_spec. apply SFadd_zeroish. Qed.

Lemma sub_zeroish (x y : float) : zeroish x -> zeroish y -> zeroish (x - y).
Proof. unfold zeroish. rewrite sub_spec. apply SFsub_zeroish. Qed.

Lemma sub_diag_zeroish (x : float) : zeroish (x - x).
Proof. unfold zeroish. rewrite sub_spec. apply SFsub_diag. Qed.

Lemma abs_zeroish (x : float) : zeroish x -> zeroish (abs x).
Proof. unfold zeroish. rewrite abs_spec. apply SFabs_zeroish. Qed.

Lemma div_zeroish (x y : float) : zeroish x -> zeroish (x / y).
Proof. unfold zeroish. rewrite div_spec. apply SFdiv_zeroish. Qed.

Lemma sqrt_zeroish (x : float) : zeroish x -> zeroish (sqrt x).
Proof. unfold zeroish. rewrite sqrt_spec. apply SFsqrt_zeroish. Qed.

Lemma eqb_zero_zeroish (x : float) : (x =? 0)%float = true -> zeroish x.
Proof. rewrite eqb_spec. apply SFeqb_zero. Qed.

Lemma nan_zeroish : zeroish nan.
Proof. exact I. Qed.

Lemma ltb_zeroish (e z : float) :
  (e <? 0)%float = false -> zeroish z -> (e <? z)%float = false.
Proof. rewrite !ltb_spec. apply SFltb_zeroish. Qed.

End FloatFacts.

Module DecoderFacts.
Import Decoder.

Local Open Scope Z_scope.

Lemma pixel_x_no_wrap (p : pixel) :
  rgb_bytes p ->
  pixel_x p = red p * 65536 + green p * 256 + blue p /\
  0 <= pixel_x p < 16777216.
Proof.
  unfold rgb_bytes, is_byte, pixel_x, u32.
  intros (Hr & Hg & Hb).
  rewrite (Z.mod_small (red p * 65536)) by lia.
  rewrite (Z.mod_small (green p * 256)) by lia.
  rewrite (Z.mod_small (red p * 65536 + green p * 256)) by lia.
  rewrite Z.mod_small by lia.
  lia.
Qed.

(** C1, as the code has it: a pixel of three bytes gives the 24-bit value
    [x = R*65536 + G*256 + B] without wrap-around, and for every [x] the
    decoder follows the rule of the specification in its order: no-data at
    8388608, [x * 0.01] m below it, [(x - 16777216) * 0.01] m above it.  At
    the sample points 0 gives 0.0 m, 8388608 no-data, 8388607 gives
    83886.07 m, 8388609 gives -83886.07 m (which is what
    [(8388609 - 16777216) * 0.01] evaluates to) and 16777215 gives -0.01 m. *)
Theorem png_to_elevation_rule (p : pixel) (x : Z) :
  rgb_bytes p ->
  (pixel_x p = red p * 65536 + green p * 256 + blue p /\
   0 <= pixel_x p < 16777216) /\
  elevation_of_x x = decoder_rule x /\
  metres (elevation_of_x 0) 0 /\
  elevation_of_x 8388608 = None /\
  metres (elevation_of_x 8388607) 83886.07 /\
  metres (elevation_of_x 8388609) (-83886.07) /\
  metres (elevation_of_x 16777215) (-0.01).
Proof.
  intros Hp. split; [exact (pixel_x_no_wrap p Hp)|]. split.
  - unfold elevation_of_x, decoder_rule, where_branch.
    destruct (x =? 8388608); [reflexivity|].
    destruct (x <? 8388608); reflexivity.
  - repeat split; vm_compute; reflexivity.
Qed.

Lemma png_to_elevation_rule_witness :
  rgb_bytes {| red := 128; green := 0; blue := 0 |} /\
  pixel_x {| red := 128; green := 0; blue := 0 |} = 8388608 /\
  elevation_of_x 8388609 = decoder_rule 8388609.
Proof.
  assert (Hb : rgb_bytes {| red := 128; green := 0; blue := 0 |})
    by (unfold rgb_bytes, is_byte; simpl; lia).
  split; [exact Hb|].
  destruct (png_to_elevation_rule
              {| red := 128; green := 0; blue := 0 |} 8388609 Hb)
    as ((Hx & _) & Hrule & _).
  split; [exact Hx | exact Hrule].
Defined.

(** C1, counterexample: at x = 8388609 the decoded elevation is not
    -83838.07 m. *)
Lemma png_to_elevation_8388609_not_83838 :
  ~ metres (elevation_of_x 8388609) (-83838.07).
Proof. vm_compute. discriminate. Qed.

End DecoderFacts.

Module LevelsFacts.
Import Levels.

Local Open Scope Q_scope.

Lemma steps_succ (k : nat) (s : Q) :
  inject_Z (Z.of_nat (S k)) * s == inject_Z (Z.of_nat k) * s + s.
Proof.
  rewrite Nat2Z.inj_succ, <- Z.add_1_r, inject_Z_plus.
  change (inject_Z 1) with 1. ring.
Qed.

Lemma steps_zero (s : Q) : inject_Z (Z.of_nat 0) * s == 0.
Proof. change (inject_Z (Z.of_nat 0)) with 0. ring. Qed.

Lemma levels_loop_more_fuel (g : generator) (fuel : nat) :
  forall v l, levels_loop fuel g v = Some l ->
  forall fuel', (fuel <= fuel')%nat -> levels_loop fuel' g v = Some l.
Proof.
  induction fuel as [|fuel IH]; intros v l Hrun fuel' Hle; [discriminate|].
  destruct fuel' as [|fuel']; [lia|].
  simpl in *.
  destruct (Qle_bool v (max_elev g + interval g * 0.01)); [|exact Hrun].
  destruct (levels_loop fuel g (v + interval g)) as [l0|] eqn:Hrec;
    [|discriminate].
  rewrite (IH _ _ Hrec fuel') by lia. exact Hrun.
Qed.

(** What a finished run of the loop returns: an arithmetic progression from
    [v], every member within the bound, the next step beyond it. *)
Lemma levels_loop_shape (g : generator) (fuel : nat) :
  forall v l, levels_loop fuel g v = Some l ->
  (forall k, (k < length l)%nat ->
     nth k l 0 == v + inject_Z (Z.of_nat k) * interval g) /\
  Forall (fun x => x <= top g) l /\
  ~ v + inject_Z (Z.of_nat (length l)) * interval g <= top g.
Proof.
  unfold top.
  induction fuel as [|fuel IH]; intros v l Hrun; [discriminate|].
  cbn [levels_loop] in Hrun.
  destruct (Qle_bool v (max_elev g + interval g * 0.01)) eqn:Hc.
  - destruct (levels_loop fuel g (v + interval g)) as [l0|] eqn:Hrec;
      [|discriminate].
    injection Hrun as <-.
    destruct (IH _ _ Hrec) as (Hnth & Hall & Hnext).
    apply Qle_bool_iff in Hc.
    split; [|split].
    + intros [|k] Hk; cbn [nth].
      * rewrite steps_zero. lra.
      * rewrite Hnth by (cbn [length] in Hk; lia).
        rewrite steps_succ. lra.
    + constructor; assumption.
    + cbn [length]. rewrite steps_succ.
      intros H. apply Hnext. lra.
  - injection Hrun as <-.
    split; [|split].
    + intros k Hk. cbn [length] in Hk. lia.
    + constructor.
    + cbn [length]. rewrite steps_zero.
      intros H. assert (Hv : v <= max_elev g + interval g * 0.01) by lra.
      apply Qle_bool_iff in Hv. congruence.
Qed.

Lemma levels_loop_enough_fuel (g : generator) (fuel : nat) :
  forall v, top g - v < inject_Z (Z.of_nat fuel) * interval g ->
  exists l, levels_loop (S fuel) g v = Some l.
Proof.
  unfold top.
  induction fuel as [|fuel IH]; intros v Hv.
  - rewrite steps_zero in Hv.
    cbn [levels_loop].
    destruct (Qle_bool v (max_elev g + interval g * 0.01)) eqn:Hc.
    + apply Qle_bool_iff in Hc. lra.
    + eexists. reflexivity.
  - rewrite steps_succ in Hv.
    cbn [levels_loop].
    destruct (Qle_bool v (max_elev g + interval g * 0.01)) eqn:Hc.
    + destruct (IH (v + interval g)) as [l Hl]; [lra|].
      cbn [levels_loop] in Hl. rewrite Hl. eexists. reflexivity.
    + eexists. reflexivity.
Qed.

Lemma steps_cover (q step : Q) :
  0 < step -> exists n : nat, q < inject_Z (Z.of_nat n) * step.
Proof.
  intros Hs.
  exists (Z.to_nat (Qfloor (q / step) + 1)).
  assert (Hq : q == q / step * step)
    by (field; intros H0; rewrite H0 in Hs; discriminate).
  rewrite Hq at 1.
  apply Qmult_lt_r; [exact Hs|].
  apply Qlt_le_trans with (inject_Z (Qfloor (q / step) + 1)).
  - apply Qlt_floor.
  - rewrite <- Zle_Qle. lia.
Qed.

Lemma get_levels_example_run :
  get_levels 14 example_generator =
  Some [0; 10; 20; 30; 40; 50; 60; 70; 80; 90; 100; 110; 120].
Proof. vm_compute. reflexivity. Qed.

(** C2, as the code has it: for a positive interval the loop ends, and the
    levels are [effectiveBase + k * interval] for k = 0, 1, ..., every one
    at most [maxElevation + interval * 0.01], the next step being beyond that
    bound.  With minimum -5, maximum 123 and interval 10 the effective base
    is 0 and the list is [0, 10, ..., 120]: 130 exceeds 123.1 and is not
    produced. *)
Theorem get_levels_sequence (g : generator) :
  0 < interval g ->
  (exists fuel l,
     get_levels fuel g = Some l /\
     (forall fuel' l', get_levels fuel' g = Some l' -> l' = l) /\
     (forall k, (k < length l)%nat ->
        nth k l 0 == effective_base g + inject_Z (Z.of_nat k) * interval g) /\
     Forall (fun x => x <= max_elev g + interval g * 0.01) l /\
     ~ effective_base g + inject_Z (Z.of_nat (length l)) * interval g
       <= max_elev g + interval g * 0.01) /\
  effective_base example_generator = 0 /\
  get_levels 14 example_generator =
  Some [0; 10; 20; 30; 40; 50; 60; 70; 80; 90; 100; 110; 120].
Proof.
  intros Hpos. split; [|split; [reflexivity|exact get_levels_example_run]].
  destruct (steps_cover (top g - effective_base g) (interval g) Hpos)
    as [n Hn].
  destruct (levels_loop_enough_fuel g n _ Hn) as [l Hl].
  exists (S n), l. split; [exact Hl|]. split.
  - intros fuel' l' Hl'. unfold get_levels in *.
    pose proof (levels_loop_more_fuel g _ _ _ Hl (Nat.max fuel' (S n))
                  (Nat.le_max_r _ _)) as H1.
    pose proof (levels_loop_more_fuel g _ _ _ Hl' (Nat.max fuel' (S n))
                  (Nat.le_max_l _ _)) as H2.
    congruence.
  - exact (levels_loop_shape g _ _ _ Hl).
Qed.

Lemma get_levels_sequence_witness :
  0 < interval example_generator /\
  get_levels 14 example_generator =
  Some [0; 10; 20; 30; 40; 50; 60; 70; 80; 90; 100; 110; 120].
Proof.
  assert (Hpos : 0 < interval example_generator) by reflexivity.
  split; [exact Hpos|].
  exact (proj2 (proj2 (get_levels_sequence example_generator Hpos))).
Defined.

(** C2, counterexample: whatever the fuel, the example never yields the
    list [0, 10, ..., 130]. *)
Lemma get_levels_example_not_up_to_130 :
  ~ exists fuel,
      get_levels fuel example_generator =
      Some [0; 10; 20; 30; 40; 50; 60; 70; 80; 90; 100; 110; 120; 130].
Proof.
  intros [fuel H]. unfold get_levels in H.
  pose proof (levels_loop_more_fuel _ _ _ _ H (Nat.max fuel 14)
                (Nat.le_max_l _ _)) as H1.
  pose proof (levels_loop_more_fuel _ _ _ _ get_levels_example_run
                (Nat.max fuel 14) (Nat.le_max_r _ _)) as H2.
  rewrite H1 in H2. discriminate H2.
Qed.

End LevelsFacts.

Module RDPFacts.
Import RDP.

Local Open Scope Q_scope.

(** ** Comparisons and [argmax] *)




(** ** The distance array *)









(** ** Endpoints of slices and of the concatenation *)






(** ** Unfolding one call *)



Lemma rdp_split (fuel : nat) (points : list point) (eps : Q) :
  (3 <= length points)%nat ->
  exceeds (nth (argmax (dists_sq points)) (dists_sq points) 0) eps = true ->
  rdp_simplify (S fuel) points eps =
  match rdp_simplify fuel
          (firstn (argmax (dists_sq points) + 1) points) eps with
  | None => None
  | Some left_ =>
      match rdp_simplify fuel (skipn (argmax (dists_sq points)) points) eps
      with
      | None => None
      | Some right_ => Some (removelast left_ ++ right_)
      end
  end.
Proof.
  intros H Hex. cbn [rdp_simplify].
  destruct (Nat.ltb_spec (length points) 3); [lia|].
  rewrite Hex. reflexivity.
Qed.

(** With a negative tolerance a collinear run is split at index 0 again and
    again: the recursion of the source does not end, whatever the fuel. *)
Lemma rdp_negative_tolerance_loops (fuel : nat) :
  rdp_simplify fuel [(0, 0); (1, 0); (2, 0)] (-1) = None.
Proof.
  induction fuel as [|fuel IH]; [reflexivity|].
  rewrite rdp_split; [|simpl; lia|reflexivity].
  change (argmax (dists_sq [(0, 0); (1, 0); (2, 0)])) with 0%nat.
  cbn [skipn]. rewrite IH.
  destruct (rdp_simplify fuel (firstn (0 + 1) _) (-1)); reflexivity.
Qed.

(** ** Endpoints are kept and the recursion ends *)




End RDPFacts.

Module SchemeFacts.
Import Scheme.

Section Decided.

Variable A : Type.
Variable origin : A.
Variable far : list A -> option nat.
Hypothesis far_interior : interior far.

Lemma head_firstn (points : list A) (k : nat) :
  nth 0 (firstn (S k) points) origin = nth 0 points origin.
Proof. destruct points; reflexivity. Qed.

Lemma head_skipn (points : list A) (k : nat) :
  nth 0 (skipn k points) origin = nth k points origin.
Proof.
  revert points.
  induction k as [|k IH]; intros [|p t]; try reflexivity.
  simpl. apply IH.
Qed.

Lemma end_skipn (points : list A) (k : nat) :
  (k < length points)%nat ->
  last (skipn k points) origin = last points origin.
Proof.
  revert points.
  induction k as [|k IH]; intros [|p t] Hk; try reflexivity;
    try (simpl in Hk; lia).
  cbn [skipn]. rewrite IH by (simpl in Hk; lia).
  destruct t; [simpl in Hk; lia|reflexivity].
Qed.

Lemma head_join (l r : list A) :
  (2 <= length l)%nat ->
  nth 0 (removelast l ++ r) origin = nth 0 l origin.
Proof.
  destruct l as [|a [|b t]]; simpl; intros H; try lia. reflexivity.
Qed.

Lemma end_join (l r : list A) :
  r <> [] -> last (l ++ r) origin = last r origin.
Proof.
  intros Hr.
  induction l as [|a t IH]; [reflexivity|].
  simpl. rewrite IH.
  destruct (t ++ r) eqn:E; [|reflexivity].
  apply app_eq_nil in E. destruct E. congruence.
Qed.

Lemma join_length (l r : list A) :
  (length (removelast l ++ r) = length l - 1 + length r)%nat.
Proof.
  rewrite length_app.
  destruct l as [|a t]; [reflexivity|].
  rewrite (app_removelast_last a (l := a :: t)) at 2 by discriminate.
  rewrite length_app. simpl length. lia.
Qed.

Lemma call_short (fuel : nat) (points : list A) :
  (length points < 3)%nat ->
  rdp_with origin far (S fuel) points = Some points.
Proof.
  intros H. cbn [rdp_with].
  destruct (Nat.ltb_spec (length points) 3); [reflexivity|lia].
Qed.

Lemma call_collapse (fuel : nat) (points : list A) :
  (3 <= length points)%nat -> far points = None ->
  rdp_with origin far (S fuel) points
  = Some [nth 0 points origin; last points origin].
Proof.
  intros H Hf. cbn [rdp_with].
  destruct (Nat.ltb_spec (length points) 3); [lia|].
  rewrite Hf. reflexivity.
Qed.

Lemma call_split (fuel : nat) (points : list A) (idx : nat) :
  (3 <= length points)%nat -> far points = Some idx ->
  rdp_with origin far (S fuel) points =
  match rdp_with origin far fuel (firstn (idx + 1) points) with
  | None => None
  | Some left_ =>
      match rdp_with origin far fuel (skipn idx points) with
      | None => None
      | Some right_ => Some (removelast left_ ++ right_)
      end
  end.
Proof.
  intros H Hf. cbn [rdp_with].
  destruct (Nat.ltb_spec (length points) 3); [lia|].
  rewrite Hf. reflexivity.
Qed.

(** With splits strictly inside the run, the recursion ends within as many
    calls as there are points and keeps both ends. *)
Lemma ends_kept (fuel : nat) :
  forall points, (2 <= length points <= fuel)%nat ->
  exists out,
    rdp_with origin far fuel points = Some out /\
    nth 0 out origin = nth 0 points origin /\
    last out origin = last points origin /\
    (2 <= length out)%nat.
Proof.
  induction fuel as [|fuel IH]; intros points Hlen; [lia|].
  destruct (Nat.ltb_spec (length points) 3) as [Hs|Hs].
  { exists points. rewrite call_short by exact Hs.
    repeat split; lia. }
  destruct (far points) as [idx|] eqn:Hf.
  - pose proof (far_interior points idx Hs Hf) as Hidx.
    rewrite (call_split _ _ idx) by assumption.
    destruct (IH (firstn (idx + 1) points)) as (l & Hl & Hl1 & _ & Hl3).
    { rewrite firstn_length_le by lia. lia. }
    destruct (IH (skipn idx points)) as (r & Hr & _ & Hr2 & Hr3).
    { rewrite length_skipn. lia. }
    rewrite Hl, Hr. exists (removelast l ++ r).
    split; [reflexivity|]. split; [|split].
    + rewrite head_join by exact Hl3.
      rewrite Hl1. replace (idx + 1)%nat with (S idx) by lia.
      apply head_firstn.
    + rewrite end_join by (destruct r; [simpl in Hr3; lia|discriminate]).
      rewrite Hr2. apply end_skipn. lia.
    + rewrite join_length. lia.
  - exists [nth 0 points origin; last points origin].
    rewrite call_collapse by assumption.
    repeat split. simpl. lia.
Qed.

(** The point at which a run is split stays in the output. *)
Lemma split_point_kept (fuel : nat) (points : list A) (idx : nat) :
  (3 <= length points <= S fuel)%nat -> far points = Some idx ->
  exists out,
    rdp_with origin far (S fuel) points = Some out /\
    In (nth idx points origin) out /\
    (3 <= length out)%nat.
Proof.
  intros Hlen Hf.
  pose proof (far_interior points idx (proj1 Hlen) Hf) as Hidx.
  rewrite (call_split _ _ idx) by (tauto || assumption).
  destruct (ends_kept fuel (firstn (idx + 1) points))
    as (l & Hl & _ & _ & Hl3).
  { rewrite firstn_length_le by lia. lia. }
  destruct (ends_kept fuel (skipn idx points))
    as (r & Hr & Hr1 & _ & Hr3).
  { rewrite length_skipn. lia. }
  rewrite Hl, Hr. exists (removelast l ++ r). split; [reflexivity|].
  split.
  - apply in_or_app. right.
    rewrite head_skipn in Hr1. rewrite <- Hr1.
    destruct r; [simpl in Hr3; lia|left; reflexivity].
  - rewrite join_length. lia.
Qed.

End Decided.

End SchemeFacts.

Module RDP64Facts.
Import PrimFloat FloatOps SpecFloat FloatAxioms.
Import Binary64 RDP64 FloatFacts SchemeFacts.

(** ** The recursion *)

(** [_rdp_simplify] is the recursion scheme with the decision [far]. *)
Lemma rdp_simplify_scheme (epsilon : float) (fuel : nat) :
  forall points,
    rdp_simplify fuel points epsilon
    = Scheme.rdp_with origin (far epsilon) fuel points.
Proof.
  induction fuel as [|fuel IH]; intros points; [reflexivity|].
  cbn [rdp_simplify Scheme.rdp_with]. cbv zeta.
  destruct (length points <? 3)%nat; [reflexivity|].
  unfold far, max_dist.
  destruct (epsilon <? nth (argmax (dists points)) (dists points) nan)%float.
  - rewrite !IH. reflexivity.
  - reflexivity.
Qed.

(** ** [argmax] and the distance array *)

Lemma argmax_from_bound (l : list float) :
  forall mp max_ind i,
    (max_ind < i)%nat -> (argmax_from mp max_ind i l < i + length l)%nat.
Proof.
  induction l as [|x l IH]; intros mp max_ind i Hi; simpl; [lia|].
  destruct (is_nan mp); [lia|].
  destruct (x <=? mp)%float.
  - specialize (IH mp max_ind (S i) ltac:(lia)). lia.
  - specialize (IH x i (S i) ltac:(lia)). lia.
Qed.

Lemma argmax_lt (l : list float) :
  l <> [] -> (argmax l < length l)%nat.
Proof.
  destruct l as [|x l]; [congruence|]. intros _. simpl.
  pose proof (argmax_from_bound l x 0%nat 1%nat ltac:(lia)). lia.
Qed.

Lemma dists_length (points : list point) :
  length (dists points) = length points.
Proof.
  unfold dists. cbv zeta.
  destruct (norm (chord points) =? 0)%float; apply length_map.
Qed.

Lemma nth_map_in {A B : Type} (f : A -> B) (l : list A) (k : nat)
    (d : A) (d' : B) :
  (k < length l)%nat -> nth k (map f l) d' = f (nth k l d).
Proof.
  intros Hk. rewrite (nth_indep _ d' (f d)) by (rewrite length_map; exact Hk).
  apply map_nth.
Qed.

Lemma nth_end {A : Type} (l : list A) (d : A) :
  nth (length l - 1) l d = last l d.
Proof.
  induction l as [|x l IH]; [reflexivity|].
  destruct l as [|y l]; [reflexivity|].
  change (last (x :: y :: l) d) with (last (y :: l) d).
  rewrite <- IH. simpl. rewrite Nat.sub_0_r. reflexivity.
Qed.

(** ** The distances of the two ends *)

Lemma norm_zeroish (v : point) :
  zeroish (fst v) -> zeroish (snd v) -> zeroish (norm v).
Proof.
  intros H0 H1. unfold norm. apply sqrt_zeroish.
  apply add_zeroish; apply mul_zeroish_l; assumption.
Qed.

Lemma cross_zeroish_r (d v : point) :
  zeroish (fst v) -> zeroish (snd v) -> zeroish (cross d v).
Proof.
  intros H0 H1. unfold cross.
  apply sub_zeroish; apply mul_zeroish_r; assumption.
Qed.

(** The cross product of the chord with the chord taken backwards. *)
Lemma cross_back (s e : point) : zeroish (cross (psub e s) (psub s e)).
Proof.
  unfold zeroish, cross, psub. cbn [fst snd].
  rewrite sub_spec, !mul_spec, !sub_spec.
  set (e0 := Prim2SF (fst e)). set (e1 := Prim2SF (snd e)).
  set (s0 := Prim2SF (fst s)). set (s1 := Prim2SF (snd s)).
  unfold SF64sub, SF64mul.
  destruct (SFsub_swap e0 s0) as [E0|[Za0 Zb0]];
    destruct (SFsub_swap e1 s1) as [E1|[Za1 Zb1]].
  - rewrite E0, E1, !SFmul_opp_r.
    rewrite (SFmul_comm (SFsub prec emax e1 s1)). apply SFsub_diag.
  - apply SFsub_zeroish;
      [apply SFmul_zeroish_r|apply SFmul_zeroish_l]; assumption.
  - apply SFsub_zeroish;
      [apply SFmul_zeroish_l|apply SFmul_zeroish_r]; assumption.
  - apply SFsub_zeroish;
      [apply SFmul_zeroish_l|apply SFmul_zeroish_r]; assumption.
Qed.

Lemma first_dist_zeroish (points : list point) :
  points <> [] -> zeroish (nth 0 (dists points) nan).
Proof.
  intros Hne.
  assert (Hlen : (0 < length points)%nat)
    by (destruct points; [congruence|simpl; lia]).
  unfold dists. cbv zeta.
  destruct (norm (chord points) =? 0)%float;
    rewrite (nth_map_in _ points 0 origin) by exact Hlen;
    fold (first_point points).
  - apply norm_zeroish; apply sub_diag_zeroish.
  - apply div_zeroish, abs_zeroish, cross_zeroish_r; apply sub_diag_zeroish.
Qed.

Lemma last_dist_zeroish (points : list point) :
  points <> [] -> zeroish (nth (length points - 1) (dists points) nan).
Proof.
  intros Hne.
  assert (Hlen : (length points - 1 < length points)%nat)
    by (destruct points; [congruence|simpl; lia]).
  unfold dists. cbv zeta.
  destruct (norm (chord points) =? 0)%float eqn:En;
    rewrite (nth_map_in _ points _ origin) by exact Hlen;
    rewrite nth_end; fold (last_point points).
  - apply eqb_zero_zeroish. exact En.
  - apply div_zeroish, abs_zeroish. apply cross_back.
Qed.

(** For a tolerance that is not negative a call splits strictly inside
    the run. *)
Lemma far_interior (epsilon : float) :
  (epsilon <? 0)%float = false -> Scheme.interior (far epsilon).
Proof.
  intros He points idx Hlen Hfar. unfold far, max_dist in Hfar.
  destruct (epsilon <? nth (argmax (dists points)) (dists points) nan)%float
    eqn:Hex; [|discriminate].
  injection Hfar as Hidx. rewrite Hidx in Hex.
  assert (Hne : points <> []) by (intros ->; simpl in Hlen; lia).
  assert (Hlt : (idx < length points)%nat).
  { rewrite <- Hidx, <- dists_length. apply argmax_lt.
    intros E. apply (f_equal (@length float)) in E.
    rewrite dists_length in E. simpl in E. lia. }
  assert (H0 : idx <> 0%nat).
  { intros ->. rewrite (ltb_zeroish _ _ He (first_dist_zeroish _ Hne)) in Hex.
    discriminate. }
  assert (H1 : idx <> (length points - 1)%nat).
  { intros ->. rewrite (ltb_zeroish _ _ He (last_dist_zeroish _ Hne)) in Hex.
    discriminate. }
  lia.
Qed.

(** ** Runs whose cross products vanish *)


Lemma nth_zeroish (l : list float) (k : nat) :
  Forall zeroish l -> zeroish (nth k l nan).
Proof.
  intros H. revert k. induction H as [|x l Hx _ IH]; intros k.
  - destruct k; exact nan_zeroish.
  - destruct k; [exact Hx|apply IH].
Qed.


(** ** Runs along an axis *)

Lemma first_point_in (points : list point) :
  points <> [] -> In (first_point points) points.
Proof. destruct points; [congruence|]. intros _. left. reflexivity. Qed.

Lemma last_point_in (points : list point) :
  points <> [] -> In (last_point points) points.
Proof.
  intros Hne. unfold last_point.
  rewrite (app_removelast_last origin Hne) at 2.
  apply in_or_app. right. left. reflexivity.
Qed.

(** A run of points in one row, or in one column, whose chord has a
    computed norm other than zero collapses to its two ends, whatever the
    coordinates are. *)
Lemma axis_run_collapses (points : list point) (epsilon : float)
    (fuel : nat) (r : float) :
  (3 <= length points)%nat ->
  Forall (fun p => fst p = r) points \/ Forall (fun p => snd p = r) points ->
  (epsilon <? 0)%float = false ->
  (norm (chord points) =? 0)%float = false ->
  rdp_simplify (S fuel) points epsilon
  = Some [first_point points; last_point points].
Proof.
  intros Hlen Haxis He Hn.
  assert (Hne : points <> []) by (intros ->; simpl in Hlen; lia).
  rewrite rdp_simplify_scheme. apply call_collapse; [exact Hlen|].
  unfold far, max_dist.
  rewrite (ltb_zeroish _ _ He); [reflexivity|].
  apply nth_zeroish. unfold dists. cbv zeta. rewrite Hn.
  apply Forall_forall. intros x Hx. apply in_map_iff in Hx.
  destruct Hx as (p & <- & Hp).
  apply div_zeroish, abs_zeroish. unfold cross, chord, psub. cbn [fst snd].
  destruct Haxis as [Hrow|Hcol].
  - rewrite Forall_forall in Hrow.
    rewrite (Hrow _ (first_point_in _ Hne)), (Hrow _ (last_point_in _ Hne)),
      (Hrow _ Hp).
    apply sub_zeroish;
      [apply mul_zeroish_l|apply mul_zeroish_r]; apply sub_diag_zeroish.
  - rewrite Forall_forall in Hcol.
    rewrite (Hcol _ (first_point_in _ Hne)), (Hcol _ (last_point_in _ Hne)),
      (Hcol _ Hp).
    apply sub_zeroish;
      [apply mul_zeroish_r|apply mul_zeroish_l]; apply sub_diag_zeroish.
Qed.

(** ** Both ends are kept *)

Lemma rdp_simplify_keeps_ends (points : list point) (epsilon : float) :
  (epsilon <? 0)%float = false -> (2 <= length points)%nat ->
  exists out,
    rdp_simplify (length points) points epsilon = Some out /\
    first_point out = first_point points /\
    last_point out = last_point points /\
    (2 <= length out)%nat.
Proof.
  intros He Hlen. rewrite rdp_simplify_scheme.
  apply (ends_kept _ origin (far epsilon) (far_interior epsilon He)). lia.
Qed.

(** ** The three cases *)





End RDP64Facts.

Module CompositingFacts.
Import Compositing.

Lemma fill_cell_first_valid (r l : cell) : fill_cell r l = first_valid r l.
Proof. destruct r, l; reflexivity. Qed.

Lemma zip_with_ext {A B C : Type} (f g : A -> B -> C) :
  (forall x y, f x y = g x y) ->
  forall xs ys, zip_with f xs ys = zip_with g xs ys.
Proof.
  intros H xs. induction xs as [|x xs IH]; intros [|y ys]; simpl; try easy.
  rewrite H, IH. reflexivity.
Qed.

Lemma fill_gaps_union (r l : grid cell) : fill_gaps r l = grid_union r l.
Proof.
  unfold fill_gaps, grid_union.
  apply zip_with_ext. intros x y.
  apply zip_with_ext, fill_cell_first_valid.
Qed.

Lemma has_shapeb_spec (h w : nat) (g : grid cell) :
  has_shapeb h w g = true <-> has_shape h w g.
Proof.
  unfold has_shapeb, has_shape.
  rewrite andb_true_iff, Nat.eqb_eq, forallb_forall, Forall_forall.
  split; intros [H1 H2]; (split; [exact H1|]); intros row Hrow;
    apply Nat.eqb_eq, H2, Hrow.
Qed.

Lemma union_row_nan (w : nat) (row : list cell) :
  length row = w -> zip_with first_valid (repeat None w) row = row.
Proof.
  revert w. induction row as [|x row IH]; intros [|w] H; simpl in *;
    try reflexivity; try discriminate.
  rewrite IH by lia. reflexivity.
Qed.

Lemma union_full_nan (h w : nat) (g : grid cell) :
  has_shape h w g -> grid_union (full_nan h w) g = g.
Proof.
  unfold has_shape, grid_union, full_nan. intros [Hlen Hrows].
  revert h Hlen. induction Hrows as [|row g Hrow _ IH]; intros [|h] Hlen;
    simpl in *; try reflexivity; try discriminate.
  rewrite union_row_nan by exact Hrow.
  rewrite IH by lia. reflexivity.
Qed.

Lemma union_row_complete (r l : list cell) :
  existsb is_nan r = false -> length l = length r ->
  zip_with first_valid r l = r.
Proof.
  revert l. induction r as [|x r IH]; intros [|y l] Hc Hl; simpl in *;
    try reflexivity; try discriminate.
  apply orb_false_iff in Hc as [Hx Hr].
  destruct x; [|discriminate]. simpl.
  rewrite IH by (assumption || lia). reflexivity.
Qed.

(** A grid without no-data cells absorbs any grid of its shape. *)
Lemma union_complete (h w : nat) (r l : grid cell) :
  any_nan r = false -> has_shape h w r -> has_shape h w l ->
  grid_union r l = r.
Proof.
  unfold any_nan, has_shape, grid_union. intros Hc [Hr1 Hr2] [Hl1 Hl2].
  revert h l Hc Hr1 Hl1 Hl2.
  induction Hr2 as [|row r Hrow _ IH]; intros h [|lrow l] Hc Hr1 Hl1 Hl2;
    simpl in *; try reflexivity; try (subst h; discriminate).
  apply orb_false_iff in Hc as [Hc1 Hc2].
  pose proof (Forall_inv Hl2) as Hlrow. cbv beta in Hlrow.
  pose proof (Forall_inv_tail Hl2) as Hl2'.
  rewrite union_row_complete by (assumption || lia).
  destruct h as [|h]; [discriminate|].
  rewrite (IH h) by (assumption || lia). reflexivity.
Qed.

Lemma union_row_length (w : nat) (r l : list cell) :
  length r = w -> length l = w -> length (zip_with first_valid r l) = w.
Proof.
  revert w l. induction r as [|x r IH]; intros [|w] [|y l] Hr Hl;
    simpl in *; try reflexivity; try discriminate.
  rewrite (IH w) by lia. reflexivity.
Qed.

Lemma union_shape (h w : nat) (r l : grid cell) :
  has_shape h w r -> has_shape h w l -> has_shape h w (grid_union r l).
Proof.
  unfold has_shape, grid_union. intros [Hr1 Hr2] [Hl1 Hl2].
  revert h l Hr1 Hl1 Hl2.
  induction Hr2 as [|row r Hrow _ IH]; intros h [|lrow l] Hr1 Hl1 Hl2;
    simpl in *; try (split; [lia|constructor]); try (subst h; discriminate).
  pose proof (Forall_inv Hl2) as Hlrow. cbv beta in Hlrow.
  pose proof (Forall_inv_tail Hl2) as Hl2'.
  destruct (IH (length r) l eq_refl) as [E1 E2]; [lia|assumption|].
  split; [simpl; lia|].
  constructor; [|exact E2].
  apply union_row_length; assumption.
Qed.

Lemma full_nan_shape (h w : nat) : has_shape h w (full_nan h w).
Proof.
  unfold has_shape, full_nan. split; [apply repeat_length|].
  apply Forall_forall. intros row Hrow.
  apply repeat_spec in Hrow. subst row. apply repeat_length.
Qed.

Lemma forall2b_spec {A B : Type} (f : A -> B -> bool) (P : A -> B -> Prop) :
  (forall x y, f x y = true -> P x y) ->
  forall xs ys, forall2b f xs ys = true -> Forall2 P xs ys.
Proof.
  intros HP xs. induction xs as [|x xs IH]; intros [|y ys] H;
    simpl in H; try discriminate; constructor.
  - apply HP. apply andb_true_iff in H. tauto.
  - apply IH. apply andb_true_iff in H. tauto.
Qed.

Lemma disjoint_nodatab_spec (a b : grid cell) :
  disjoint_nodatab a b = true -> disjoint_nodata a b.
Proof.
  apply forall2b_spec. intros x y. apply forall2b_spec.
  intros u v H. apply negb_true_iff. exact H.
Qed.

Lemma disjoint_row_complete (r l : list cell) :
  Forall2 (fun x y => is_nan x && is_nan y = false) r l ->
  existsb is_nan (zip_with first_valid r l) = false.
Proof.
  induction 1 as [|x y r l Hxy _ IH]; [reflexivity|].
  simpl. rewrite IH. destruct x, y; try reflexivity. discriminate Hxy.
Qed.

(** Two grids with disjoint no-data patterns leave no gap in their union. *)
Lemma disjoint_union_complete (a b : grid cell) :
  disjoint_nodata a b -> any_nan (grid_union a b) = false.
Proof.
  unfold disjoint_nodata, any_nan, grid_union.
  induction 1 as [|r l a b Hrl _ IH]; [reflexivity|].
  simpl. rewrite IH, disjoint_row_complete by exact Hrl. reflexivity.
Qed.

Lemma fold_union_complete (gs : list (grid cell)) (r : grid cell) :
  any_nan r = false -> has_shape 256 256 r ->
  Forall (has_shape 256 256) gs ->
  fold_left grid_union gs r = r.
Proof.
  intros Hc Hr Hgs. induction Hgs as [|g gs Hg _ IH]; [reflexivity|].
  simpl. rewrite (union_complete 256 256) by assumption. exact IH.
Qed.

(** The loop computes the union of the decoded layers in priority order:
    leaving it early does not change the outcome. *)
Lemma composite_loop_union (layers : list (option (grid cell))) :
  well_shaped layers ->
  forall result, has_shape 256 256 result ->
  composite_loop layers result =
  Some (fold_left grid_union (present layers) result).
Proof.
  unfold well_shaped.
  induction layers as [|[layer|] rest IH]; intros Hws result Hres.
  - reflexivity.
  - simpl in Hws.
    pose proof (Forall_inv Hws) as Hl.
    pose proof (Forall_inv_tail Hws) as Hrest.
    cbn [composite_loop present flat_map app fold_left].
    rewrite (proj2 (has_shapeb_spec 256 256 layer) Hl).
    rewrite fill_gaps_union.
    assert (Hshape : has_shape 256 256 (grid_union result layer))
      by (apply union_shape; assumption).
    destruct (any_nan (grid_union result layer)) eqn:Hc; cbn [negb].
    + apply IH; assumption.
    + change (flat_map _ rest) with (present rest).
      rewrite fold_union_complete by assumption. reflexivity.
  - simpl in Hws. cbn [composite_loop]. apply IH; assumption.
Qed.

(** Once no gap remains, the loop has been left: layers that follow are
    not looked at. *)
Lemma composite_loop_settled (layers extra : list (option (grid cell))) :
  forall result r,
  any_nan result = true ->
  composite_loop layers result = Some r -> any_nan r = false ->
  composite_loop (layers ++ extra) result = Some r.
Proof.
  induction layers as [|[layer|] rest IH]; intros result r Hgap Hrun Hc.
  - simpl in Hrun. injection Hrun as <-. congruence.
  - cbn [composite_loop app] in *.
    destruct (has_shapeb 256 256 layer); [|discriminate].
    destruct (any_nan (fill_gaps result layer)) eqn:Hg; cbn [negb] in *.
    + apply IH; assumption.
    + exact Hrun.
  - cbn [composite_loop app] in *. apply IH; assumption.
Qed.

Lemma full_nan_has_gaps : any_nan (full_nan 256 256) = true.
Proof. vm_compute. reflexivity. Qed.

(** C4: without a cache entry, [download_one] starts from an all-no-data
    grid and composites the decoded sources in priority order, which gives
    the union of the layers (a cell comes from the first source that has
    data there), whether or not the loop is left early.  For three sources
    with pairwise disjoint no-data patterns the composite is their union,
    and it has no gap; and once the sources so far have filled every cell,
    any further lower-priority sources leave the result as it is. *)
Theorem download_one_composite
    (l1 l2 l3 : grid cell) (layers sources extra : list (option (grid cell)))
    (r : grid cell) :
  has_shape 256 256 l1 -> has_shape 256 256 l2 -> has_shape 256 256 l3 ->
  disjoint_nodata l1 l2 -> disjoint_nodata l1 l3 -> disjoint_nodata l2 l3 ->
  well_shaped layers ->
  download_one None sources = Some r -> any_nan r = false ->
  download_one None layers =
    Some (fold_left grid_union (present layers) (full_nan 256 256)) /\
  download_one None [Some l1; Some l2; Some l3] =
    Some (grid_union (grid_union l1 l2) l3) /\
  any_nan (grid_union (grid_union l1 l2) l3) = false /\
  download_one None (sources ++ extra) = Some r.
Proof.
  intros H1 H2 H3 D12 D13 D23 Hws Hrun Hc.
  unfold download_one, composite in *.
  split; [|split; [|split]].
  - apply composite_loop_union; [exact Hws|apply full_nan_shape].
  - rewrite composite_loop_union.
    + cbn [present flat_map app fold_left].
      rewrite (union_full_nan 256 256) by exact H1. reflexivity.
    + unfold well_shaped. cbn [present flat_map app].
      repeat (apply Forall_cons; [assumption|]). apply Forall_nil.
    + apply full_nan_shape.
  - rewrite (union_complete 256 256); try assumption.
    + apply disjoint_union_complete, D12.
    + apply disjoint_union_complete, D12.
    + apply union_shape; assumption.
  - apply composite_loop_settled; [exact full_nan_has_gaps|exact Hrun|exact Hc].
Qed.

Lemma download_one_composite_witness :
  download_one None
    [Some tile_without_first_row; Some (flat_tile 2); Some (flat_tile 3)] =
    Some (grid_union (grid_union tile_without_first_row (flat_tile 2))
            (flat_tile 3)) /\
  download_one None ([Some (flat_tile 2)] ++ [Some (flat_tile 3)]) =
    Some (flat_tile 2).
Proof.
  assert (S1 : has_shape 256 256 tile_without_first_row)
    by (apply has_shapeb_spec; vm_compute; reflexivity).
  assert (S2 : has_shape 256 256 (flat_tile 2))
    by (apply has_shapeb_spec; vm_compute; reflexivity).
  assert (S3 : has_shape 256 256 (flat_tile 3))
    by (apply has_shapeb_spec; vm_compute; reflexivity).
  assert (D12 : disjoint_nodata tile_without_first_row (flat_tile 2))
    by (apply disjoint_nodatab_spec; vm_compute; reflexivity).
  assert (D13 : disjoint_nodata tile_without_first_row (flat_tile 3))
    by (apply disjoint_nodatab_spec; vm_compute; reflexivity).
  assert (D23 : disjoint_nodata (flat_tile 2) (flat_tile 3))
    by (apply disjoint_nodatab_spec; vm_compute; reflexivity).
  assert (W : well_shaped [Some (flat_tile 2)])
    by (apply Forall_cons; [exact S2|apply Forall_nil]).
  assert (R : download_one None [Some (flat_tile 2)] = Some (flat_tile 2))
    by (vm_compute; reflexivity).
  assert (C : any_nan (flat_tile 2) = false) by (vm_compute; reflexivity).
  destruct (download_one_composite
              tile_without_first_row (flat_tile 2) (flat_tile 3)
              [Some (flat_tile 2)] [Some (flat_tile 2)] [Some (flat_tile 3)]
              (flat_tile 2) S1 S2 S3 D12 D13 D23 W R C)
    as (_ & U & _ & E).
  split; [exact U|exact E].
Defined.

End CompositingFacts.

Module GeneratorFacts.
Import Generator.

Local Open Scope Q_scope.

Lemma all_cells_map {A B : Type} (P : B -> Prop) (f : A -> B) (g : grid A) :
  (forall x, In x (concat g) -> P (f x)) -> all_cells P (map (map f) g).
Proof.
  unfold all_cells. intros H.
  induction g as [|row g IH]; [constructor|].
  simpl. constructor.
  - apply Forall_forall. intros y Hy.
    apply in_map_iff in Hy as (x & <- & Hx).
    apply H. simpl. apply in_or_app. left. exact Hx.
  - apply IH. intros x Hx. apply H. simpl. apply in_or_app. right. exact Hx.
Qed.

Lemma all_cells_in {A : Type} (P : A -> Prop) (g : grid A) :
  all_cells P g -> forall x, In x (concat g) -> P x.
Proof.
  unfold all_cells. intros H x Hx.
  apply in_concat in Hx as (row & Hrow & Hx).
  rewrite Forall_forall in H. specialize (H row Hrow).
  rewrite Forall_forall in H. exact (H x Hx).
Qed.

Lemma set_nan_where_keeps (cond : Q -> bool) (g : grid cell) :
  all_cells not_negative g -> all_cells not_negative (set_nan_where cond g).
Proof.
  intros H. unfold set_nan_where. apply all_cells_map.
  intros [v|] Hx; [|exact I].
  destruct (cond v); [exact I|].
  exact (all_cells_in _ _ H _ Hx).
Qed.

(** After the sea step no cell is negative, whatever the input. *)
Lemma mask_sea_not_negative (g : grid cell) :
  all_cells not_negative (mask_sea None g).
Proof.
  unfold mask_sea, set_nan_where. apply all_cells_map.
  intros [v|] _; [|exact I].
  destruct (Qltb v 0) eqn:E; [exact I|].
  simpl. destruct (Qlt_le_dec v 0) as [Hlt|Hle]; [|exact Hle].
  apply Qltb_lt in Hlt. congruence.
Qed.

Lemma clip_range_keeps (lo hi : option Q) (g : grid cell) :
  all_cells not_negative g -> all_cells not_negative (clip_range lo hi g).
Proof.
  intros H. unfold clip_range.
  destruct lo, hi; repeat apply set_nan_where_keeps; exact H.
Qed.

Lemma nan_to_num_not_negative (g : grid cell) :
  all_cells not_negative g -> all_cells (fun v => 0 <= v) (nan_to_num g).
Proof.
  intros H. unfold nan_to_num. apply all_cells_map.
  intros [v|] Hx; [|lra].
  exact (all_cells_in _ _ H _ Hx).
Qed.

Lemma restore_nan_not_negative (smoothed : grid Q) (raw : grid cell) :
  all_cells (fun v => 0 <= v) smoothed ->
  all_cells not_negative (restore_nan smoothed raw).
Proof.
  unfold all_cells, restore_nan. intros H. revert raw.
  induction H as [|srow smoothed Hrow _ IH]; intros [|rrow raw];
    simpl; constructor; [|apply IH].
  clear IH. revert rrow.
  induction Hrow as [|x srow Hx _ IHrow]; intros [|r rrow];
    simpl; constructor; [|apply IHrow].
  destruct r; [exact Hx|exact I].
Qed.

Section Prepared.

Variable zoom : grid cell -> Q -> grid cell.
Variable gaussian_filter : grid Q -> Q -> grid Q.
Hypothesis zoom_ok : keeps_not_negative zoom.
Hypothesis filter_ok : keeps_not_negative_values gaussian_filter.

Lemma prepare_not_negative (raw : grid cell) (nodata : option Q)
    (downsample sigma : Q) (hi : option Q) :
  all_cells not_negative
    (prepare zoom gaussian_filter raw nodata downsample sigma None hi).
Proof.
  unfold prepare.
  set (raw3 := mask_sea None (mask_sentinels (mask_nodata nodata raw))).
  assert (H3 : all_cells not_negative raw3) by apply mask_sea_not_negative.
  set (raw4 := if Qeq_bool downsample 1 then raw3 else zoom raw3 downsample).
  assert (H4 : all_cells not_negative raw4).
  { unfold raw4. destruct (Qeq_bool downsample 1); [exact H3|].
    apply zoom_ok, H3. }
  assert (H5 : all_cells not_negative (clip_range None hi raw4))
    by (apply clip_range_keeps, H4).
  destruct (Qltb 0 sigma); [|exact H5].
  apply restore_nan_not_negative, filter_ok, nan_to_num_not_negative, H5.
Qed.

End Prepared.

Lemma valid_values_not_negative (g : grid cell) :
  all_cells not_negative g -> Forall (fun v => 0 <= v) (valid_values g).
Proof.
  unfold all_cells, valid_values. intros H.
  induction H as [|row g Hrow _ IH]; [constructor|].
  simpl. apply Forall_app. split; [|exact IH].
  clear IH. induction Hrow as [|c row Hc _ IHrow]; [constructor|].
  simpl. apply Forall_app. split; [|exact IHrow].
  destruct c; constructor; [exact Hc|constructor].
Qed.

Lemma fold_min_not_negative (vs : list Q) :
  Forall (fun v => 0 <= v) vs ->
  forall v, 0 <= v -> 0 <= fold_left Qmin vs v.
Proof.
  induction 1 as [|x vs Hx _ IH]; intros v Hv; [exact Hv|].
  simpl. apply IH. apply Q.min_glb; assumption.
Qed.

Lemma fold_max_not_negative (vs : list Q) :
  forall v, 0 <= v -> 0 <= fold_left Qmax vs v.
Proof.
  induction vs as [|x vs IH]; intros v Hv; [exact Hv|].
  simpl. apply IH.
  apply Qle_trans with v; [exact Hv|apply Q.le_max_l].
Qed.

Lemma nanmin_not_negative (g : grid cell) :
  all_cells not_negative g -> not_negative (nanmin g).
Proof.
  intros H. apply valid_values_not_negative in H.
  unfold nanmin. destruct (valid_values g) as [|v vs]; [exact I|].
  simpl. apply fold_min_not_negative.
  - exact (Forall_inv_tail H).
  - exact (Forall_inv H).
Qed.

Lemma nanmax_not_negative (g : grid cell) :
  all_cells not_negative g -> not_negative (nanmax g).
Proof.
  intros H. apply valid_values_not_negative in H.
  unfold nanmax. destruct (valid_values g) as [|v vs]; [exact I|].
  simpl. apply fold_max_not_negative. exact (Forall_inv H).
Qed.

Lemma sea_cells_removed (nodata : option Q) (raw : grid cell) :
  below_zero_removed raw
    (mask_sea None (mask_sentinels (mask_nodata nodata raw))).
Proof.
  unfold below_zero_removed, mask_sea, mask_sentinels, mask_nodata,
    set_nan_where.
  induction raw as [|row raw IH]; [destruct nodata; constructor|].
  destruct nodata as [nd|]; cbn [map]; (constructor; [|exact IH]);
    clear IH; (induction row as [|r row IHrow]; [constructor|]);
    cbn [map]; (constructor; [|exact IHrow]); clear IHrow;
    destruct r as [v|]; try reflexivity; intros Hv;
    apply Qltb_lt in Hv.
  - destruct (Qeq_bool v nd); [reflexivity|].
    destruct (Qle_bool v (-9000)); [reflexivity|].
    rewrite Hv. reflexivity.
  - destruct (Qle_bool v (-9000)); [reflexivity|].
    rewrite Hv. reflexivity.
Qed.

Lemma auto_base_not_negative (m interval : Q) :
  0 <= m -> 0 < interval -> 0 <= Levels.auto_base m interval.
Proof.
  intros Hm Hi. unfold Levels.auto_base.
  apply Qmult_le_0_compat; [|lra].
  change 0 with (inject_Z 0). rewrite <- Zle_Qle.
  change 0%Z with (Qfloor 0). apply Qfloor_resp_le.
  apply Qle_shift_div_l; [exact Hi|lra].
Qed.

(** C9, as the code has it: when no [elev_range_min] is given, every cell
    whose raw value is below 0 (the -9999 sentinel and everything at or
    below -9000 included, with or without nodata metadata) is no-data
    before resampling and statistics, so no cell of the final elevation
    grid is negative, and neither [min_elev], [max_elev] nor the automatic
    base (for a positive interval) is negative when it is a number.
    [min_elev] is NaN exactly when no valid cell is left. *)
Theorem init_removes_sea
    (zoom : grid cell -> Q -> grid cell)
    (gaussian_filter : grid Q -> Q -> grid Q)
    (raw : grid cell) (nodata : option Q) (interval : Q)
    (downsample sigma : Q) (elev_range_max : option Q) :
  keeps_not_negative zoom ->
  keeps_not_negative_values gaussian_filter ->
  let t := init zoom gaussian_filter raw nodata interval None
             downsample sigma None elev_range_max in
  below_zero_removed raw
    (mask_sea None (mask_sentinels (mask_nodata nodata raw))) /\
  all_cells not_negative (elevation t) /\
  not_negative (min_elev t) /\
  not_negative (max_elev t) /\
  (0 < interval -> not_negative (base_elev t)) /\
  (min_elev t = None <-> valid_values (elevation t) = []).
Proof.
  intros Hz Hf t.
  assert (He : all_cells not_negative (elevation t))
    by (apply prepare_not_negative; assumption).
  pose proof (nanmin_not_negative _ He) as Hmin.
  split; [apply sea_cells_removed|].
  split; [exact He|]. split; [exact Hmin|].
  split; [exact (nanmax_not_negative _ He)|]. split.
  - intros Hi. unfold t, init in *. cbn [base_elev min_elev elevation] in *.
    destruct (nanmin _) as [m|]; [|exact I].
    apply auto_base_not_negative; assumption.
  - unfold t, init. cbn [min_elev elevation]. unfold nanmin.
    destruct (valid_values _); split; intros H;
      (reflexivity || discriminate H).
Qed.

Lemma init_removes_sea_witness :
  let t := init no_zoom no_filter sample_raster None 10 None 1 0 None None in
  elevation t = [[None; None]; [Some 5; Some 12]] /\
  not_negative (min_elev t).
Proof.
  assert (Hz : keeps_not_negative no_zoom) by (intros g f H; exact H).
  assert (Hf : keeps_not_negative_values no_filter) by (intros g f H; exact H).
  destruct (init_removes_sea no_zoom no_filter sample_raster None 10 1 0 None
              Hz Hf) as (_ & _ & Hmin & _).
  split; [reflexivity|exact Hmin].
Defined.

(** C9, counterexample: for a raster that lies below zero throughout, no
    cell is left and [min_elev] is NaN, not a number at or above 0. *)
Lemma init_sunken_raster_min_is_nan :
  min_elev (init no_zoom no_filter sunken_raster None 10 None 1 0 None None)
  = None /\
  ~ exists m,
      min_elev
        (init no_zoom no_filter sunken_raster None 10 None 1 0 None None)
      = Some m /\ 0 <= m.
Proof.
  split; [reflexivity|].
  intros (m & Hm & _). discriminate Hm.
Qed.

End GeneratorFacts.

Module ContoursFacts.
Import Contours.

(** ** Arrays of one shape, and the subset order *)

Lemma Forall2_same {A : Type} (R : A -> A -> Prop) (l : list A) :
  (forall x, R x x) -> Forall2 R l l.
Proof. intros H. induction l; constructor; auto. Qed.

Lemma Forall2_weaken {A B : Type} (R R' : A -> B -> Prop) :
  (forall x y, R x y -> R' x y) ->
  forall l1 l2, Forall2 R l1 l2 -> Forall2 R' l1 l2.
Proof. intros H l1 l2 H12. induction H12; constructor; auto. Qed.

Lemma subset_refl (a : grid bool) : subset a a.
Proof.
  apply Forall2_same. intros row. apply Forall2_same.
  intros x Hx. exact Hx.
Qed.

Lemma subset_alike (a b : grid bool) : subset a b -> alike a b.
Proof.
  apply Forall2_weaken. intros r1 r2.
  apply Forall2_weaken. intros; exact I.
Qed.

Lemma Forall2_map_both {A1 A2 B1 B2 : Type}
    (RA : A1 -> A2 -> Prop) (RB : B1 -> B2 -> Prop)
    (f1 : A1 -> B1) (f2 : A2 -> B2) :
  (forall x y, RA x y -> RB (f1 x) (f2 y)) ->
  forall l1 l2, Forall2 RA l1 l2 -> Forall2 RB (map f1 l1) (map f2 l2).
Proof.
  intros H l1 l2 H12. induction H12; simpl; constructor; auto.
Qed.

Lemma mapi_from_rel {A1 A2 B1 B2 : Type}
    (RA : A1 -> A2 -> Prop) (RB : B1 -> B2 -> Prop)
    (f1 : nat -> A1 -> B1) (f2 : nat -> A2 -> B2) :
  (forall i x y, RA x y -> RB (f1 i x) (f2 i y)) ->
  forall l1 l2, Forall2 RA l1 l2 ->
  forall k, Forall2 RB (mapi_from k f1 l1) (mapi_from k f2 l2).
Proof.
  intros H l1 l2 H12. induction H12; intros k; simpl; constructor; auto.
Qed.

Lemma map_mapi_rel {A1 A2 B1 B2 : Type}
    (RA : A1 -> A2 -> Prop) (RB : B1 -> B2 -> Prop)
    (f1 : A1 -> B1) (f2 : nat -> A2 -> B2) :
  (forall i x y, RA x y -> RB (f1 x) (f2 i y)) ->
  forall l1 l2, Forall2 RA l1 l2 ->
  forall k, Forall2 RB (map f1 l1) (mapi_from k f2 l2).
Proof.
  intros H l1 l2 H12. induction H12; intros k; simpl; constructor; auto.
Qed.

(** ** One dilation step is monotone *)

Lemma nth_nil_row (i : nat) : nth i ([] : grid bool) [] = [].
Proof. destruct i; reflexivity. Qed.

Lemma read_row_le (r1 r2 : list bool) (j : nat) :
  Forall2 implies r1 r2 -> implies (nth j r1 true) (nth j r2 true).
Proof.
  intros H. revert j.
  induction H as [|x y r1 r2 Hxy _ IH]; intros [|j]; simpl; auto;
    intros E; exact E.
Qed.

Lemma read_le (c1 c2 : grid bool) (i j : nat) :
  subset c1 c2 -> implies (read c1 i j) (read c2 i j).
Proof.
  unfold read. intros H. revert i.
  induction H as [|r1 r2 c1 c2 Hr _ IH]; intros i.
  - rewrite nth_nil_row. intros E. exact E.
  - destruct i as [|i]; simpl; [apply read_row_le, Hr|apply IH].
Qed.

Lemma hit_read (c : grid bool) (i j : nat) :
  implies (read c i j) (hit c i j).
Proof. unfold hit. intros ->. reflexivity. Qed.

Lemma hit_le (c1 c2 : grid bool) (i j : nat) :
  subset c1 c2 -> implies (hit c1 i j) (hit c2 i j).
Proof.
  intros H E. unfold hit, read_up, read_left in *.
  repeat rewrite orb_true_iff in E. repeat rewrite orb_true_iff.
  destruct E as [[[[E|E]|E]|E]|E].
  - left; left; left; left. exact (read_le _ _ _ _ H E).
  - left; left; left; right.
    destruct i; [reflexivity|exact (read_le _ _ _ _ H E)].
  - left; left; right. exact (read_le _ _ _ _ H E).
  - left; right.
    destruct j; [reflexivity|exact (read_le _ _ _ _ H E)].
  - right. exact (read_le _ _ _ _ H E).
Qed.

Lemma dilate_step_mono (m1 m2 c1 c2 : grid bool) :
  subset m1 m2 -> subset c1 c2 ->
  subset (dilate_step m1 c1) (dilate_step m2 c2).
Proof.
  intros Hm Hc. unfold dilate_step, subset.
  apply mapi_from_rel with (RA := Forall2 implies); [|exact Hm].
  intros i r1 r2 Hr.
  apply mapi_from_rel with (RA := implies); [|exact Hr].
  intros j x y Hxy.
  destruct x.
  - rewrite (Hxy eq_refl). apply hit_le, Hc.
  - destruct y.
    + intros E. apply hit_read. exact (read_le _ _ _ _ Hc E).
    + apply read_le, Hc.
Qed.

Lemma zeros_below_step (a m c : grid bool) :
  alike a m -> subset (zeros_like a) (dilate_step m c).
Proof.
  intros H. unfold zeros_like, dilate_step, subset.
  apply map_mapi_rel with (RA := Forall2 (fun _ _ => True)); [|exact H].
  intros i r1 r2 Hr.
  apply map_mapi_rel with (RA := fun _ _ => True); [|exact Hr].
  intros j x y _ E. discriminate E.
Qed.

Lemma logical_not_alike (a : grid bool) : alike a (logical_not a).
Proof.
  unfold alike, logical_not.
  rewrite <- (map_id a) at 1.
  apply Forall2_map_both with (RA := eq);
    [|apply Forall2_same; reflexivity].
  intros r ? <-. rewrite <- (map_id r) at 1.
  apply Forall2_map_both with (RA := eq);
    [|apply Forall2_same; reflexivity].
  intros; exact I.
Qed.

Lemma logical_not_antitone (a b : grid bool) :
  subset a b -> subset (logical_not b) (logical_not a).
Proof.
  unfold subset, logical_not. intros H.
  induction H as [|r1 r2 a b Hr _ IH]; simpl; constructor; [|exact IH].
  clear IH. induction Hr as [|x y r1 r2 Hxy _ IH]; simpl; constructor;
    [|exact IH].
  intros E. destruct x; [|reflexivity].
  rewrite (Hxy eq_refl) in E. discriminate E.
Qed.

(** ** Equality test *)

Lemma forall2b_eq {A : Type} (eqb : A -> A -> bool) :
  (forall x y, eqb x y = true -> x = y) ->
  forall l1 l2, forall2b eqb l1 l2 = true -> l1 = l2.
Proof.
  intros H l1. induction l1 as [|x l1 IH]; intros [|y l2] E;
    simpl in E; try discriminate; [reflexivity|].
  apply andb_true_iff in E as [E1 E2].
  rewrite (H _ _ E1), (IH _ E2). reflexivity.
Qed.

Lemma forall2b_refl {A : Type} (eqb : A -> A -> bool) :
  (forall x, eqb x x = true) -> forall l, forall2b eqb l l = true.
Proof.
  intros H l. induction l as [|x l IH]; [reflexivity|].
  simpl. rewrite H, IH. reflexivity.
Qed.

Lemma grid_eqb_eq (a b : grid bool) : grid_eqb a b = true <-> a = b.
Proof.
  unfold grid_eqb. split.
  - apply forall2b_eq. intros r1 r2. apply forall2b_eq.
    intros x y. apply Bool.eqb_prop.
  - intros <-. apply forall2b_refl. intros r. apply forall2b_refl.
    apply Bool.eqb_reflx.
Qed.

(** ** The loop: what it returns *)

Lemma dilate_loop_stable (fuel : nat) (mask : grid bool) :
  forall cur r, dilate_loop fuel mask cur = Some r ->
  dilate_step mask r = r.
Proof.
  induction fuel as [|fuel IH]; intros cur r H; [discriminate|].
  cbn [dilate_loop] in H.
  destruct (grid_eqb (dilate_step mask cur) cur) eqn:E.
  - injection H as <-. apply grid_eqb_eq, E.
  - exact (IH _ _ H).
Qed.

(** The flood under a smaller mask stays inside any stable array of a
    larger mask. *)
Lemma dilate_loop_below (fuel : nat) (m1 m2 r2 : grid bool) :
  subset m1 m2 -> dilate_step m2 r2 = r2 ->
  forall cur r1, subset cur r2 ->
  dilate_loop fuel m1 cur = Some r1 -> subset r1 r2.
Proof.
  intros Hm Hst.
  induction fuel as [|fuel IH]; intros cur r1 Hcur H; [discriminate|].
  cbn [dilate_loop] in H.
  destruct (grid_eqb (dilate_step m1 cur) cur).
  - injection H as <-. exact Hcur.
  - apply (IH (dilate_step m1 cur)); [|exact H].
    rewrite <- Hst. apply dilate_step_mono; assumption.
Qed.

(** ** The loop ends *)

Lemma row_count (r1 r2 : list bool) :
  Forall2 implies r1 r2 ->
  length r1 = length r2 /\
  (length (filter (fun b : bool => b) r1)
   <= length (filter (fun b : bool => b) r2))%nat /\
  (length (filter (fun b : bool => b) r1)
   = length (filter (fun b : bool => b) r2) -> r1 = r2).
Proof.
  induction 1 as [|x y r1 r2 Hxy _ (IH1 & IH2 & IH3)];
    [repeat split; reflexivity|].
  pose proof (filter_length_le (fun b : bool => b) r2) as Hle.
  destruct x, y; simpl; try (discriminate (Hxy eq_refl));
    repeat split; try lia.
  - intros E. rewrite IH3 by lia. reflexivity.
  - intros E. rewrite IH3 by lia. reflexivity.
Qed.

Lemma subset_count (a b : grid bool) :
  subset a b ->
  cell_count a = cell_count b /\
  (ones a <= ones b)%nat /\
  (ones a = ones b -> a = b).
Proof.
  unfold cell_count, ones.
  induction 1 as [|r1 r2 a b Hr _ (IH1 & IH2 & IH3)];
    [repeat split; reflexivity|].
  destruct (row_count _ _ Hr) as (R1 & R2 & R3).
  simpl. rewrite !filter_app, !length_app.
  repeat split; try lia.
  intros E. rewrite R3, IH3 by lia. reflexivity.
Qed.

Lemma ones_le_cells (a : grid bool) : (ones a <= cell_count a)%nat.
Proof. apply filter_length_le. Qed.

Lemma dilate_loop_ends (mask : grid bool) (fuel : nat) :
  forall cur,
  subset cur (dilate_step mask cur) ->
  (cell_count cur - ones cur < fuel)%nat ->
  exists r, dilate_loop fuel mask cur = Some r.
Proof.
  induction fuel as [|fuel IH]; intros cur Hgrow Hfuel; [lia|].
  cbn [dilate_loop].
  destruct (grid_eqb (dilate_step mask cur) cur) eqn:E;
    [eexists; reflexivity|].
  apply IH.
  - apply dilate_step_mono; [apply subset_refl|exact Hgrow].
  - destruct (subset_count _ _ Hgrow) as (C1 & C2 & C3).
    pose proof (ones_le_cells (dilate_step mask cur)) as Hle.
    assert (ones cur <> ones (dilate_step mask cur)).
    { intros Heq. apply C3 in Heq.
      symmetry in Heq. apply grid_eqb_eq in Heq. congruence. }
    lia.
Qed.

Lemma zeros_like_count (a : grid bool) :
  cell_count (zeros_like a) = cell_count a.
Proof.
  unfold cell_count, zeros_like.
  induction a as [|r a IH]; [reflexivity|].
  simpl. rewrite !length_app, length_map, IH. reflexivity.
Qed.

(** [binary_fill_holes] returns. *)
Lemma binary_fill_holes_total (input : grid bool) :
  exists r,
    dilate_loop (S (cell_count input)) (logical_not input) (zeros_like input)
    = Some r.
Proof.
  apply dilate_loop_ends.
  - apply zeros_below_step, logical_not_alike.
  - rewrite zeros_like_count. lia.
Qed.

Lemma alike_flip {A B : Type} (a : grid A) (b : grid B) :
  alike a b -> alike b a.
Proof.
  unfold alike. induction 1 as [|r1 r2 a b Hr _ IH]; constructor;
    [|exact IH].
  induction Hr; constructor; auto.
Qed.

Lemma alike_trans {A B C : Type} (a : grid A) (b : grid B) (c : grid C) :
  alike a b -> alike b c -> alike a c.
Proof.
  unfold alike. intros Hab. revert c.
  induction Hab as [|r1 r2 a b Hr _ IH]; intros c Hbc;
    inversion Hbc as [|? r3 ? c' Hr3 Hbc']; subst; constructor;
    [|apply IH; exact Hbc'].
  clear -Hr Hr3. revert r3 Hr3.
  induction Hr as [|x y r1 r2 _ _ IH]; intros r3 Hr3;
    inversion Hr3; subst; constructor; auto.
Qed.

(** Hole filling is monotone. *)
Lemma binary_fill_holes_mono (a b : grid bool) :
  subset a b ->
  exists fa fb,
    binary_fill_holes a = Some fa /\
    binary_fill_holes b = Some fb /\
    subset fa fb.
Proof.
  intros Hab. unfold binary_fill_holes.
  destruct (binary_fill_holes_total a) as [ra Ha].
  destruct (binary_fill_holes_total b) as [rb Hb].
  rewrite Ha, Hb. exists (logical_not ra), (logical_not rb).
  split; [reflexivity|]. split; [reflexivity|].
  apply logical_not_antitone.
  pose proof (dilate_loop_stable _ _ _ _ Ha) as Hst.
  apply (dilate_loop_below (S (cell_count b)) (logical_not b) (logical_not a)
           ra (logical_not_antitone _ _ Hab) Hst (zeros_like b) rb);
    [|exact Hb].
  rewrite <- Hst. apply zeros_below_step.
  apply alike_trans with a.
  - apply alike_flip, subset_alike, Hab.
  - apply logical_not_alike.
Qed.

Lemma threshold_mono (l1 l2 : Q) (data : grid cell) :
  (l1 <= l2)%Q -> subset (threshold l2 data) (threshold l1 data).
Proof.
  intros Hl. unfold threshold, subset.
  apply Forall2_map_both with (RA := eq);
    [|apply Forall2_same; reflexivity].
  intros r ? <-.
  apply Forall2_map_both with (RA := eq);
    [|apply Forall2_same; reflexivity].
  intros c ? <-. unfold above, implies.
  destruct c as [v|]; [|intros E; exact E].
  rewrite !Qle_bool_iff. intros H. lra.
Qed.

(** C3: for every elevation grid and two levels [L1 < L2],
    [extract_contours] computes both region masks (valid and at or above the
    level, holes filled), and the mask of [L2] is a subset of the mask of
    [L1]. *)
Theorem region_masks_nest
    (elevation : grid cell) (nodata : option Q) (L1 L2 : Q) :
  (L1 < L2)%Q ->
  exists m1 m2,
    region_mask elevation nodata L1 = Some m1 /\
    region_mask elevation nodata L2 = Some m2 /\
    subset m2 m1.
Proof.
  intros HL. unfold region_mask.
  destruct (binary_fill_holes_mono
              (threshold L2 (Generator.mask_nodata nodata elevation))
              (threshold L1 (Generator.mask_nodata nodata elevation)))
    as (f2 & f1 & H2 & H1 & Hsub).
  { apply threshold_mono. lra. }
  exists f1, f2. auto.
Qed.

Lemma region_masks_nest_witness :
  exists m1 m2,
    region_mask crater None 4 = Some m1 /\
    region_mask crater None 6 = Some m2 /\
    subset m2 m1.
Proof.
  apply (region_masks_nest crater None 4 6). reflexivity.
Defined.

End ContoursFacts.

Module MapperFacts.
Import PrimFloat Binary64 Mapper Cases.

(** C8, as the code has it: [deg2num] has no range check.  Whatever the
    latitude is, inside the Mercator band or outside, the function returns a
    tile pair whenever none of its steps raises: the power, the two
    conversions [int()], [math.tan], [math.cos], the division by the cosine
    and [math.log].  This holds for every C library behind [math]. *)
Theorem deg2num_no_range_check
    (M : Math.libm) (lat lon : float) (zoom : Z)
    (n t c l : float) (x y : Z) :
  pow2 zoom = Some n ->
  py_int ((lon + 180) / 360 * n)%float = Some x ->
  Math.tan M (Math.radians lat) = Some t ->
  Math.cos M (Math.radians lat) = Some c ->
  is_zero c = false ->
  Math.log M (t + 1 / c)%float = Some l ->
  py_int ((1 - l / pi) / 2 * n)%float = Some y ->
  deg2num M lat lon zoom = Some (x, y).
Proof.
  intros Hn Hx Ht Hc Hz Hl Hy. unfold deg2num. cbv zeta.
  rewrite Hn. cbn [bind]. rewrite Hx. cbn [bind]. rewrite Ht. cbn [bind].
  rewrite Hc. cbn [bind]. unfold py_div. rewrite Hz. cbn [bind].
  rewrite Hl. cbn [bind]. rewrite Hy. reflexivity.
Qed.

Lemma deg2num_no_range_check_witness :
  deg2num libm_86 86 0 0 = Some (0, 0)%Z.
Proof.
  apply (deg2num_no_range_check libm_86 86 0 0 1
           0x1.c99f0ed772d54p+3 0x1.1db8f6d6a5123p-4 0x1.ad65f11046072p+1
           0 0); vm_compute; reflexivity.
Defined.

(** C8, counterexample: 86 degrees lies outside the Mercator band, above
    85.05 degrees, and [deg2num] returns a tile pair for it: at zoom 14
    the row -555, a row that no tile has. *)
Lemma deg2num_86_returns :
  (lat_85_05 <? 86)%float = true /\
  deg2num libm_86 86 0 14 = Some (8192, -555)%Z.
Proof. split; vm_compute; reflexivity. Qed.

End MapperFacts.

Module MosaicFacts.
Import PrimFloat Binary64 Mapper Mosaic Cases.

(** ** The shape of the mosaic *)

Lemma flat_map_length_const {A B : Type} (f : A -> list B) (k : nat)
    (l : list A) :
  (forall a, In a l -> length (f a) = k) ->
  length (flat_map f l) = (length l * k)%nat.
Proof.
  induction l as [|a l IH]; intros H; simpl; [reflexivity|].
  rewrite length_app, H by (left; reflexivity).
  rewrite IH by (intros b Hb; apply H; right; exact Hb). lia.
Qed.

Lemma zrange_length (a n : Z) : length (zrange a n) = Z.to_nat n.
Proof. unfold zrange. rewrite length_map, length_seq. reflexivity. Qed.

(** ** The clamp of the crop *)

(** The clamp puts both indices between 0 and the dimension.  It makes the
    end greater than the start when the start lies below the dimension, and
    only then: a start at the dimension or beyond it leaves an empty
    range. *)
Lemma clamp_spec (dim start0 end0 : Z) :
  (1 <= dim)%Z ->
  (0 <= fst (clamp dim start0 end0))%Z /\
  (snd (clamp dim start0 end0) <= dim)%Z /\
  ((start0 < dim)%Z ->
   (fst (clamp dim start0 end0) < snd (clamp dim start0 end0))%Z) /\
  ((dim <= start0)%Z ->
   (snd (clamp dim start0 end0) <= fst (clamp dim start0 end0))%Z).
Proof. unfold clamp. simpl. lia. Qed.

(** C5, the request on which the code fails.  The latitude
    38.15183740300677 is the one [num2deg] gives for the lower edge of the
    tile row 6310 at zoom 14, and [deg2num] puts it into that row.  For the
    request of this one point the row offsets come out as 256 and 256, the
    height of the mosaic; the clamp leaves the rows 256:256, so the crop
    has no row, and [create_geotiff] raises in [np.nanmin] instead of
    writing a raster of 1 x 1 pixels or more. *)
Theorem create_geotiff_empty_crop :
  deg2num libm_tile_edge lat_tile_edge 139.75 14
  = Some (14552, 6310)%Z /\
  num2deg libm_tile_edge 14552 6310 14
  = Some (0x1.315a58830c339p+5, 139.74609375)%float /\
  num2deg libm_tile_edge 14553 6311 14
  = Some (lat_tile_edge, 139.76806640625%float) /\
  option_map (fun w => (row_start w, row_end w, col_start w, col_end w))
    (crop_window lat_tile_edge lat_tile_edge 139.75 139.75
       0x1.315a58830c339p+5 139.74609375
       lat_tile_edge 139.76806640625 256 256)
  = Some (256, 256, 45, 46)%Z /\
  create_geotiff libm_tile_edge
    lat_tile_edge lat_tile_edge 139.75 139.75 14 true
    (fun _ _ => land_tile) = Raised.
Proof. repeat split; vm_compute; reflexivity. Qed.

(** ** The test for valid data *)

(** Whenever a raster is written, the mosaic it was cropped from holds
    valid data: this is all the test before the crop ensures. *)
Lemma create_geotiff_written_mosaic
    (M : Math.libm) (lat_min lat_max lon_min lon_max : float) (zoom : Z)
    (confirmed : bool) (tile_data : Z -> Z -> grid cell)
    (raster : grid cell) (w : window) :
  create_geotiff M lat_min lat_max lon_min lon_max zoom confirmed tile_data
  = Written raster w ->
  exists x_min y_min x_max y_max,
    has_valid (assemble tile_data x_min y_min
                 (x_max - x_min + 1) (y_max - y_min + 1)) = true /\
    raster = crop (assemble tile_data x_min y_min
                     (x_max - x_min + 1) (y_max - y_min + 1)) w /\
    size raster <> 0%nat.
Proof.
  unfold create_geotiff.
  destruct (deg2num M _ _ zoom) as [[x_min y_min]|]; [|discriminate].
  destruct (deg2num M _ _ zoom) as [[x_max y_max]|]; [|discriminate].
  cbv zeta.
  destruct (_ && negb confirmed); [discriminate|].
  destruct (_ || _); [discriminate|].
  destruct (has_valid _) eqn:Hv; [|discriminate]. cbn [negb].
  destruct (num2deg M x_min y_min zoom) as [[a b]|]; [|discriminate].
  destruct (num2deg M _ _ zoom) as [[c d]|]; [|discriminate].
  destruct (crop_window _ _ _ _ _ _ _ _ _ _) as [w'|]; [|discriminate].
  destruct (size _ =? 0)%nat eqn:Hs; [discriminate|].
  intros H. injection H as <- <-.
  exists x_min, y_min, x_max, y_max.
  split; [exact Hv|]. split; [reflexivity|].
  apply Nat.eqb_neq, Hs.
Qed.

(** A mosaic without valid data is not written: [create_geotiff] returns
    [False] or raises. *)
Lemma create_geotiff_empty_mosaic
    (M : Math.libm) (lat_min lat_max lon_min lon_max : float) (zoom : Z)
    (confirmed : bool) (tile_data : Z -> Z -> grid cell) :
  (forall x_min y_min nx ny,
     has_valid (assemble tile_data x_min y_min nx ny) = false) ->
  create_geotiff M lat_min lat_max lon_min lon_max zoom confirmed tile_data
  = ReturnedFalse \/
  create_geotiff M lat_min lat_max lon_min lon_max zoom confirmed tile_data
  = Raised.
Proof.
  intros Hnone. unfold create_geotiff.
  destruct (deg2num M _ _ zoom) as [[x_min y_min]|]; [|right; reflexivity].
  destruct (deg2num M _ _ zoom) as [[x_max y_max]|]; [|right; reflexivity].
  cbv zeta.
  destruct (_ && negb confirmed); [left; reflexivity|].
  destruct (_ || _); [right; reflexivity|].
  rewrite Hnone. left. reflexivity.
Qed.

(** C6, the request on which the code fails.  The point 35.29 N, 139.48 E
    at zoom 14 lies in the tile (14539, 6473), in the pixel of row 134 and
    column 227.  When that tile holds data in another pixel only, the
    mosaic passes the test for valid data, the crop is that one pixel
    without data, and [create_geotiff] writes a raster in which no pixel
    holds valid data, and returns [True]. *)
Theorem create_geotiff_writes_empty_crop :
  exists raster w,
    create_geotiff libm_bay lat_35_29 lat_35_29 lon_139_48 lon_139_48 14 true
      (fun _ _ => corner_only_tile)
    = Written raster w /\
    deg2num libm_bay lat_35_29 lon_139_48 14 = Some (14539, 6473)%Z /\
    (row_start w, row_end w, col_start w, col_end w)
    = (134, 135, 227, 228)%Z /\
    has_valid raster = false /\
    has_valid (assemble (fun _ _ => corner_only_tile) 14539 6473 1 1) = true.
Proof.
  do 2 eexists. split; [vm_compute; reflexivity|].
  split; [vm_compute; reflexivity|].
  split; [reflexivity|]. split; vm_compute; reflexivity.
Qed.

End MosaicFacts.

(* ================================================================== *)
(** * Further properties *)
(* ================================================================== *)

Module EncodingFacts.
Import Decoder Encoding.

Local Open Scope Z_scope.

Lemma where_branch_signed (x : Z) :
  (where_branch x == inject_Z (signed24 x) * 0.01)%Q.
Proof.
  unfold where_branch, signed24.
  destruct (x <? 8388608); [reflexivity|].
  unfold Zminus. rewrite inject_Z_plus, inject_Z_opp.
  change (inject_Z 16777216) with 16777216%Q. ring.
Qed.

Lemma hundredth_injective (a b : Z) :
  (inject_Z a * 0.01 == inject_Z b * 0.01)%Q -> a = b.
Proof.
  intros H. apply inject_Z_injective.
  assert (E : forall q : Q, (q == q * 0.01 * 100)%Q) by (intros q; ring).
  rewrite (E (inject_Z a)), (E (inject_Z b)), H. reflexivity.
Qed.

(** X1.  Only the pixel (128, 0, 0) decodes to no-data. *)
Theorem nodata_pixel_is_128_0_0 (p : pixel) :
  rgb_bytes p ->
  (elevation_of_x (pixel_x p) = None <->
   red p = 128 /\ green p = 0 /\ blue p = 0).
Proof.
  intros Hp. destruct (DecoderFacts.pixel_x_no_wrap p Hp) as [Hx _].
  destruct Hp as (Hr & Hg & Hb). unfold is_byte in *.
  unfold elevation_of_x. rewrite Hx.
  destruct (Z.eqb_spec (red p * 65536 + green p * 256 + blue p) 8388608)
    as [E|E]; split; intros H; try reflexivity; try discriminate; lia.
Qed.

Lemma nodata_pixel_is_128_0_0_witness :
  elevation_of_x (pixel_x {| red := 128; green := 0; blue := 0 |}) = None.
Proof.
  apply (nodata_pixel_is_128_0_0 {| red := 128; green := 0; blue := 0 |}).
  - unfold rgb_bytes, is_byte; simpl; lia.
  - simpl. lia.
Defined.

(** X2.  Away from the no-data value, the elevation is the 24-bit value read as
    a two's complement number, in centimetres: it lies between -83886.07 m
    and 83886.07 m, it is negative exactly for values above 8388608, and
    two different values never decode to the same elevation. *)
Theorem elevation_is_signed_centimetres (x1 x2 : Z) (q1 q2 : Q) :
  0 <= x1 < 16777216 -> 0 <= x2 < 16777216 ->
  elevation_of_x x1 = Some q1 -> elevation_of_x x2 = Some q2 ->
  (q1 == inject_Z (signed24 x1) * 0.01)%Q /\
  (-83886.07 <= q1 <= 83886.07)%Q /\
  ((q1 < 0)%Q <-> 8388608 < x1) /\
  ((q1 == q2)%Q -> x1 = x2).
Proof.
  intros H1 H2 E1 E2. unfold elevation_of_x in *.
  destruct (Z.eqb_spec x1 8388608) as [|N1]; [discriminate|].
  destruct (Z.eqb_spec x2 8388608) as [|N2]; [discriminate|].
  injection E1 as <-. injection E2 as <-.
  pose proof (where_branch_signed x1) as S1.
  pose proof (where_branch_signed x2) as S2.
  assert (B1 : -8388607 <= signed24 x1 <= 8388607)
    by (unfold signed24; destruct (Z.ltb_spec x1 8388608); lia).
  assert (Q1 : (inject_Z (-8388607) <= inject_Z (signed24 x1))%Q)
    by (rewrite <- Zle_Qle; lia).
  assert (Q2 : (inject_Z (signed24 x1) <= inject_Z 8388607)%Q)
    by (rewrite <- Zle_Qle; lia).
  change (inject_Z (-8388607)) with (-8388607)%Q in Q1.
  change (inject_Z 8388607) with 8388607%Q in Q2.
  split; [exact S1|]. split; [rewrite S1; split; lra|]. split.
  - rewrite S1. split.
    + intros Hneg.
      assert (Hlt : (inject_Z (signed24 x1) < inject_Z 0)%Q)
        by (change (inject_Z 0) with 0%Q; lra).
      rewrite <- Zlt_Qlt in Hlt.
      unfold signed24 in Hlt. destruct (Z.ltb_spec x1 8388608); lia.
    + intros Hx.
      assert (Hlt : (inject_Z (signed24 x1) < inject_Z 0)%Q).
      { rewrite <- Zlt_Qlt. unfold signed24.
        destruct (Z.ltb_spec x1 8388608); lia. }
      change (inject_Z 0) with 0%Q in Hlt. lra.
  - rewrite S1, S2. intros Heq. apply hundredth_injective in Heq.
    unfold signed24 in Heq.
    destruct (Z.ltb_spec x1 8388608), (Z.ltb_spec x2 8388608); lia.
Qed.

Lemma elevation_is_signed_centimetres_witness :
  ((-0.01 < 0)%Q <-> 8388608 < 16777215) /\
  ((-0.01 == 83886.07)%Q -> 16777215 = 8388607).
Proof.
  assert (H1 : 0 <= 16777215 < 16777216) by lia.
  assert (H2 : 0 <= 8388607 < 16777216) by lia.
  destruct (elevation_is_signed_centimetres 16777215 8388607
              (where_branch 16777215) (where_branch 8388607)
              H1 H2 eq_refl eq_refl) as (_ & _ & Hs & Hi).
  split; [exact Hs|exact Hi].
Defined.

End EncodingFacts.

Module BatchFacts.
Import Compositing Batch CompositingFacts.

(** ** The composite keeps the tile shape *)

Lemma composite_loop_shape (layers : list (option (grid cell))) :
  forall result r,
  has_shape 256 256 result ->
  composite_loop layers result = Some r -> has_shape 256 256 r.
Proof.
  induction layers as [|[layer|] rest IH]; intros result r Hres Hrun.
  - injection Hrun as <-. exact Hres.
  - cbn [composite_loop] in Hrun.
    destruct (has_shapeb 256 256 layer) eqn:Hl; [|discriminate].
    apply has_shapeb_spec in Hl.
    assert (Hshape : has_shape 256 256 (fill_gaps result layer))
      by (rewrite fill_gaps_union; apply union_shape; assumption).
    destruct (any_nan (fill_gaps result layer)); cbn [negb] in Hrun.
    + exact (IH _ _ Hshape Hrun).
    + injection Hrun as <-. exact Hshape.
  - exact (IH _ _ Hres Hrun).
Qed.

(** X3.  Whatever the sources deliver, a grid that [download_one] composites
    has 256 x 256 cells; when every source failed it is the all-NaN grid. *)
Theorem download_one_shape
    (fetched : list (option (grid cell))) (r : grid cell) :
  download_one None fetched = Some r ->
  has_shape 256 256 r /\
  (present fetched = [] -> r = full_nan 256 256).
Proof.
  unfold download_one, composite. intros Hrun. split.
  - exact (composite_loop_shape _ _ _ (full_nan_shape 256 256) Hrun).
  - intros Hnone.
    assert (Hws : well_shaped fetched)
      by (unfold well_shaped; rewrite Hnone; constructor).
    rewrite (composite_loop_union _ Hws _ (full_nan_shape 256 256)) in Hrun.
    rewrite Hnone in Hrun. injection Hrun as <-. reflexivity.
Qed.

Lemma download_one_shape_witness :
  has_shape 256 256 (full_nan 256 256) /\
  (present [None; None; None] = [] -> full_nan 256 256 = full_nan 256 256).
Proof.
  apply (download_one_shape [None; None; None] (full_nan 256 256)).
  reflexivity.
Defined.

(** ** The cache *)

(** X4.  What the first call of [download_one] for a tile returns is what every
    later call returns, whatever the sources deliver then: the grid was
    saved in the cache.  That holds for the all-NaN grid of a call at which
    every source failed, too. *)
Theorem download_one_cached_sticks
    (fetched fetched' : list (option (grid cell)))
    (r : grid cell) (cache' : option (grid cell)) :
  download_one_cached None fetched = Some (r, cache') ->
  download_one_cached cache' fetched' = Some (r, cache') /\
  (present fetched = [] ->
   download_one_cached cache' fetched' = Some (full_nan 256 256, cache')).
Proof.
  unfold download_one_cached. intros Hrun.
  destruct (download_one None fetched) as [r0|] eqn:E; [|discriminate].
  injection Hrun as <- <-. split; [reflexivity|].
  intros Hnone.
  assert (Hws : well_shaped fetched)
    by (unfold well_shaped; rewrite Hnone; constructor).
  unfold download_one, composite in E.
  rewrite (composite_loop_union _ Hws _ (full_nan_shape 256 256)) in E.
  rewrite Hnone in E. injection E as <-. reflexivity.
Qed.

Lemma download_one_cached_sticks_witness :
  download_one_cached (Some (full_nan 256 256)) [Some (flat_tile 2)]
  = Some (full_nan 256 256, Some (full_nan 256 256)).
Proof.
  apply (proj1 (download_one_cached_sticks [None; None; None]
                  [Some (flat_tile 2)] (full_nan 256 256)
                  (Some (full_nan 256 256)) eq_refl)).
Defined.

(** ** The dictionary of [download_all] *)

Lemma key_eqb_eq (a b : tile_key) : key_eqb a b = true <-> a = b.
Proof.
  unfold key_eqb. destruct a as [ax ay], b as [bx by_]. simpl.
  rewrite andb_true_iff, !Z.eqb_eq. split.
  - intros [-> ->]. reflexivity.
  - intros E. injection E as -> ->. split; reflexivity.
Qed.

Lemma key_eqb_refl (a : tile_key) : key_eqb a a = true.
Proof. apply key_eqb_eq. reflexivity. Qed.

Lemma key_eqb_neq (a b : tile_key) : a <> b -> key_eqb a b = false.
Proof.
  intros H. destruct (key_eqb a b) eqn:E; [|reflexivity].
  apply key_eqb_eq in E. contradiction.
Qed.

Lemma dict_get_set_same (k : tile_key) (v : grid cell) (d : results) :
  dict_get k (dict_set k v d) = Some v.
Proof.
  induction d as [|[k' v'] d IH]; simpl.
  - rewrite key_eqb_refl. reflexivity.
  - destruct (key_eqb k k') eqn:E; simpl.
    + rewrite key_eqb_refl. reflexivity.
    + rewrite E. exact IH.
Qed.

Lemma dict_get_set_other (k k0 : tile_key) (v : grid cell) (d : results) :
  k0 <> k -> dict_get k0 (dict_set k v d) = dict_get k0 d.
Proof.
  intros Hne. induction d as [|[k' v'] d IH]; simpl.
  - rewrite key_eqb_neq by exact Hne. reflexivity.
  - destruct (key_eqb k k') eqn:E; simpl.
    + apply key_eqb_eq in E. subst k'.
      rewrite key_eqb_neq by exact Hne. reflexivity.
    + destruct (key_eqb k0 k'); [reflexivity|exact IH].
Qed.

Lemma key_dec (a b : tile_key) : {a = b} + {a <> b}.
Proof.
  destruct (key_eqb a b) eqn:E.
  - left. apply key_eqb_eq, E.
  - right. intros H. apply key_eqb_eq in H. congruence.
Qed.

Lemma fold_set_get (f : tile_key -> grid cell) (order : list tile_key) :
  forall (d : results) (k : tile_key),
  dict_get k (fold_left (fun res k' => dict_set k' (f k') res) order d) =
  if in_dec key_dec k order then Some (f k) else dict_get k d.
Proof.
  induction order as [|k1 order IH]; intros d k; [reflexivity|].
  cbn [fold_left]. rewrite IH.
  destruct (in_dec key_dec k order) as [Hin|Hnin];
    destruct (in_dec key_dec k (k1 :: order)) as [Hin'|Hnin'];
    try reflexivity.
  - exfalso. apply Hnin'. right. exact Hin.
  - destruct Hin' as [->|Hin']; [|contradiction].
    apply dict_get_set_same.
  - apply dict_get_set_other. intros ->. apply Hnin'. left. reflexivity.
Qed.

(** X5.  [download_all] returns a dictionary that has an entry for every
    requested tile and for no other: the grid [download_one] returned, or
    the all-NaN grid when the call raised.  The order in which the futures
    complete does not matter. *)
Theorem download_all_total
    (download_one_at : tile_key -> option (grid cell))
    (tiles completed : list tile_key) (k : tile_key) :
  Permutation tiles completed ->
  (In k tiles ->
   dict_get k (download_all download_one_at completed)
   = Some (entry (download_one_at k))) /\
  (~ In k tiles ->
   dict_get k (download_all download_one_at completed) = None).
Proof.
  intros Hperm. unfold download_all.
  rewrite (fold_set_get (fun k' => entry (download_one_at k'))).
  split; intros H.
  - destruct (in_dec key_dec k completed) as [|Hn]; [reflexivity|].
    exfalso. apply Hn. exact (Permutation_in _ Hperm H).
  - destruct (in_dec key_dec k completed) as [Hi|]; [|reflexivity].
    exfalso. apply H.
    exact (Permutation_in _ (Permutation_sym Hperm)
             Hi).
Qed.

Lemma download_all_total_witness :
  (In (1, 0)%Z [(0, 0); (1, 0)]%Z ->
   dict_get (1, 0)%Z
     (download_all (fun k => if key_eqb k (0, 0)%Z then None
                             else Some (flat_tile 2))
        [(1, 0); (0, 0)]%Z)
   = Some (entry (Some (flat_tile 2)))) /\
  (~ In (1, 0)%Z [(0, 0); (1, 0)]%Z ->
   dict_get (1, 0)%Z
     (download_all (fun k => if key_eqb k (0, 0)%Z then None
                             else Some (flat_tile 2))
        [(1, 0); (0, 0)]%Z)
   = None).
Proof.
  apply (download_all_total
           (fun k => if key_eqb k (0, 0)%Z then None else Some (flat_tile 2))
           [(0, 0); (1, 0)]%Z [(1, 0); (0, 0)]%Z (1, 0)%Z).
  apply perm_swap.
Defined.

End BatchFacts.


Module RasterFileFacts.
Import PrimFloat Binary64 Mosaic Cases.
Import FloatFacts MosaicFacts.

(** ** Inverted ranges *)



(** ** The tiles that are fetched *)

Lemma in_zrange (a n k : Z) : In k (zrange a n) <-> (a <= k < a + n)%Z.
Proof.
  unfold zrange. rewrite in_map_iff. split.
  - intros (i & <- & Hi). apply in_seq in Hi. lia.
  - intros H. exists (Z.to_nat (k - a)). split; [lia|].
    apply in_seq. lia.
Qed.

(** X11.  The list of tiles holds exactly the tiles of the rectangle, and for a
    rectangle that is not inverted their number is the [num_tiles] that
    decides about the confirmation prompt. *)
Theorem tile_list_covers_rectangle (x_min y_min x_max y_max tx ty : Z) :
  (x_min <= x_max + 1)%Z -> (y_min <= y_max + 1)%Z ->
  (In (tx, ty) (Batch.tile_list x_min y_min x_max y_max) <->
   (x_min <= tx <= x_max)%Z /\ (y_min <= ty <= y_max)%Z) /\
  Z.of_nat (length (Batch.tile_list x_min y_min x_max y_max))
  = ((x_max - x_min + 1) * (y_max - y_min + 1))%Z.
Proof.
  intros Hx Hy. unfold Batch.tile_list. split.
  - rewrite in_flat_map. split.
    + intros (ty' & Hty & Hin). apply in_map_iff in Hin as (tx' & E & Htx).
      injection E as -> ->.
      apply in_zrange in Hty. apply in_zrange in Htx. lia.
    + intros [Htx Hty]. exists ty. split; [apply in_zrange; lia|].
      apply in_map_iff. exists tx. split; [reflexivity|].
      apply in_zrange. lia.
  - rewrite (flat_map_length_const _ (Z.to_nat (x_max + 1 - x_min))).
    + rewrite zrange_length. nia.
    + intros ty' _. rewrite length_map, zrange_length. reflexivity.
Qed.

Lemma tile_list_covers_rectangle_witness :
  (In (3, 7)%Z (Batch.tile_list 2 7 3 8) <->
   (2 <= 3 <= 3)%Z /\ (7 <= 7 <= 8)%Z) /\
  Z.of_nat (length (Batch.tile_list 2 7 3 8)) = ((3 - 2 + 1) * (8 - 7 + 1))%Z.
Proof.
  apply (tile_list_covers_rectangle 2 7 3 8 3 7); lia.
Defined.

End RasterFileFacts.

Module LayersFacts.
Import Generator Contours Layers RasterFile.
Import LevelsFacts GeneratorFacts.

Local Open Scope Q_scope.

(** ** From the raster file back to the grid *)

(** X13.  The constructor restores what [create_geotiff] wrote: after the steps
    that remove the no-data value of the file and the sentinels, the grid
    read from the file is the grid that was written, less its cells at or
    below -9000.  The no-data pixels come back as no-data. *)
Theorem raster_file_round_trip (elevation : grid cell) :
  mask_sentinels (mask_nodata file_nodata (read_band (write_band elevation)))
  = mask_sentinels elevation.
Proof.
  unfold mask_sentinels, mask_nodata, file_nodata, set_nan_where,
    read_band, write_band.
  rewrite !map_map. apply map_ext. intros row.
  rewrite !map_map. apply map_ext. intros [v|].
  - destruct (Qeq_bool v (-9999)) eqn:E.
    + apply Qeq_bool_iff in E.
      assert (H : Qle_bool v (-9000) = true) by (apply Qle_bool_iff; lra).
      rewrite H. reflexivity.
    + reflexivity.
  - reflexivity.
Qed.

(** ** The requested elevation range *)

Lemma all_cells_trivial {A : Type} (g : grid A) : all_cells (fun _ => True) g.
Proof.
  unfold all_cells. apply Forall_forall. intros row _.
  apply Forall_forall. intros x _. exact I.
Qed.

Lemma set_nan_where_cells (P P' : cell -> Prop) (cond : Q -> bool)
    (g : grid cell) :
  P' None ->
  (forall v, P (Some v) -> cond v = false -> P' (Some v)) ->
  all_cells P g -> all_cells P' (set_nan_where cond g).
Proof.
  intros Hn Hs Hg. unfold set_nan_where. apply all_cells_map.
  intros x Hin. pose proof (all_cells_in _ _ Hg x Hin) as Hx.
  destruct x as [v|]; [|exact Hn].
  destruct (cond v) eqn:E; [exact Hn|]. apply Hs; assumption.
Qed.

Lemma clip_range_in_range (lo hi : option Q) (g : grid cell) :
  all_cells (in_range lo hi) (clip_range lo hi g).
Proof.
  unfold clip_range.
  assert (H1 : all_cells (in_range lo None)
                 match lo with
                 | Some l => set_nan_where (fun v => Qltb v l) g
                 | None => g
                 end).
  { destruct lo as [l|].
    - apply (set_nan_where_cells (fun _ => True)).
      + exact I.
      + intros v _ E. apply Qltb_ge in E. split; [exact E|exact I].
      + apply all_cells_trivial.
    - apply Forall_forall. intros row _. apply Forall_forall.
      intros [v|] _; simpl; auto. }
  destruct hi as [h|]; [|exact H1].
  apply (set_nan_where_cells (in_range lo None)).
  - exact I.
  - intros v [Hl _] E. apply Qltb_ge in E. split; assumption.
  - exact H1.
Qed.

(** X14.  Without smoothing, every cell the constructor keeps lies within the
    elevation range that was asked for, whatever the resampling did. *)
Theorem prepare_within_range
    (zoom : grid cell -> Q -> grid cell)
    (gaussian_filter : grid Q -> Q -> grid Q)
    (raw : grid cell) (nodata : option Q) (downsample sigma : Q)
    (lo hi : option Q) :
  sigma <= 0 ->
  all_cells (in_range lo hi)
    (prepare zoom gaussian_filter raw nodata downsample sigma lo hi).
Proof.
  intros Hs. unfold prepare. cbv zeta.
  apply Qltb_ge in Hs. rewrite Hs. apply clip_range_in_range.
Qed.

Lemma prepare_within_range_witness :
  all_cells (in_range (Some 0) (Some 10))
    (prepare no_zoom no_filter sample_raster None 1 0 (Some 0) (Some 10)).
Proof.
  apply (prepare_within_range no_zoom no_filter sample_raster None 1 0
           (Some 0) (Some 10)).
  lra.
Defined.

(** ** The statistics *)

Lemma fold_min_le (vs : list Q) :
  forall v, fold_left Qmin vs v <= v /\
            Forall (fun x => fold_left Qmin vs v <= x) vs.
Proof.
  induction vs as [|a vs IH]; intros v; simpl.
  - split; [lra|constructor].
  - destruct (IH (Qmin v a)) as [H1 H2].
    pose proof (Q.le_min_l v a). pose proof (Q.le_min_r v a).
    split; [lra|]. constructor; [lra|exact H2].
Qed.

Lemma fold_max_ge (vs : list Q) :
  forall v, v <= fold_left Qmax vs v /\
            Forall (fun x => x <= fold_left Qmax vs v) vs.
Proof.
  induction vs as [|a vs IH]; intros v; simpl.
  - split; [lra|constructor].
  - destruct (IH (Qmax v a)) as [H1 H2].
    pose proof (Q.le_max_l v a). pose proof (Q.le_max_r v a).
    split; [lra|]. constructor; [lra|exact H2].
Qed.

Lemma valid_values_in (g : grid cell) (v : Q) :
  In (Some v) (concat g) <-> In v (valid_values g).
Proof.
  unfold valid_values. rewrite in_concat, in_flat_map. split.
  - intros (row & Hrow & Hin). exists row. split; [exact Hrow|].
    apply in_flat_map. exists (Some v). split; [exact Hin|left; reflexivity].
  - intros (row & Hrow & Hin). exists row. split; [exact Hrow|].
    apply in_flat_map in Hin as ([w|] & Hin & Hv).
    + destruct Hv as [->|[]]. exact Hin.
    + destruct Hv.
Qed.

Lemma statistics_bracket (g : grid cell) (v : Q) :
  In (Some v) (concat g) ->
  exists lo hi, nanmin g = Some lo /\ nanmax g = Some hi /\ lo <= v <= hi.
Proof.
  intros Hin. apply valid_values_in in Hin.
  unfold nanmin, nanmax.
  destruct (valid_values g) as [|a vs]; [destruct Hin|].
  destruct (fold_min_le vs a) as [L1 L2].
  destruct (fold_max_ge vs a) as [U1 U2].
  do 2 eexists. split; [reflexivity|]. split; [reflexivity|].
  destruct Hin as [->|Hin].
  - split; assumption.
  - rewrite Forall_forall in L2, U2. split; [apply L2|apply U2]; exact Hin.
Qed.

(** X15.  For a positive interval, every cell the constructor keeps lies
    between the [min_elev] and the [max_elev] it records; with one valid
    cell, neither statistic is NaN.  (An interval of 0 makes the division
    for the automatic base raise.) *)
Theorem init_statistics_bracket
    (zoom : grid cell -> Q -> grid cell)
    (gaussian_filter : grid Q -> Q -> grid Q)
    (raw : grid cell) (nodata : option Q) (interval : Q)
    (base_elevation : option Q) (downsample sigma : Q)
    (lo hi : option Q) (v : Q) :
  let t := init zoom gaussian_filter raw nodata interval base_elevation
             downsample sigma lo hi in
  0 < interval ->
  In (Some v) (concat (elevation t)) ->
  exists m top_,
    min_elev t = Some m /\ max_elev t = Some top_ /\ m <= v <= top_.
Proof.
  intros t _ Hin. unfold t, init in *. cbv zeta in *.
  cbn [elevation min_elev max_elev] in *.
  apply statistics_bracket, Hin.
Qed.

Lemma init_statistics_bracket_witness :
  exists m top_,
    min_elev (init no_zoom no_filter sample_raster None 10 None 1 0 None None)
    = Some m /\
    max_elev (init no_zoom no_filter sample_raster None 10 None 1 0 None None)
    = Some top_ /\
    m <= 12 <= top_.
Proof.
  apply (init_statistics_bracket no_zoom no_filter sample_raster None 10
           None 1 0 None None 12).
  - lra.
  - vm_compute. right. right. right. left. reflexivity.
Defined.

(** ** An interval that is not positive *)




(** ** The colour of a layer *)

Lemma py_clamp_range (c x : Q) :
  0 <= c -> 0 <= py_max 0 (py_min c x) <= c.
Proof.
  intros Hc. unfold py_max, py_min.
  destruct (Qltb x c) eqn:E1.
  - apply Qltb_lt in E1. destruct (Qltb 0 x) eqn:E2.
    + apply Qltb_lt in E2. lra.
    + lra.
  - destruct (Qltb 0 c) eqn:E2.
    + lra.
    + lra.
Qed.

Lemma py_clamp_mono (c x y : Q) :
  x <= y -> py_max 0 (py_min c x) <= py_max 0 (py_min c y).
Proof.
  intros Hxy. unfold py_max, py_min.
  destruct (Qltb x c) eqn:E1; destruct (Qltb y c) eqn:E2;
    try apply Qltb_lt in E1; try apply Qltb_ge in E1;
    try apply Qltb_lt in E2; try apply Qltb_ge in E2;
    repeat match goal with
           | |- context [Qltb ?a ?b] =>
               let E := fresh "E" in
               destruct (Qltb a b) eqn:E;
               [apply Qltb_lt in E|apply Qltb_ge in E]
           end; lra.
Qed.

(** X19.  The position of a layer in the colour map lies between 0 and
    [CMAP_MAX], so the terrain map never reaches its white end, and a higher
    level never gets a lower position. *)
Theorem norm_value_in_colour_range
    (is_terrain : bool) (min_elev max_elev level1 level2 : Q) :
  level1 <= level2 ->
  0 <= norm_value is_terrain min_elev max_elev level1 <= CMAP_MAX is_terrain /\
  norm_value is_terrain min_elev max_elev level1
  <= norm_value is_terrain min_elev max_elev level2.
Proof.
  intros Hl. unfold norm_value. cbv zeta. split.
  - apply py_clamp_range. destruct is_terrain; simpl; lra.
  - apply py_clamp_mono.
    destruct (Qltb min_elev max_elev) eqn:E; [|lra].
    apply Qltb_lt in E. unfold Qdiv.
    apply Qmult_le_compat_r; [lra|].
    apply Qlt_le_weak, Qinv_lt_0_compat. lra.
Qed.

Lemma norm_value_in_colour_range_witness :
  0 <= norm_value true 0 100 90 <= CMAP_MAX true /\
  norm_value true 0 100 90 <= norm_value true 0 100 100.
Proof.
  apply (norm_value_in_colour_range true 0 100 90 100). lra.
Defined.

End LayersFacts.

Module HolesFacts.
Import Generator Contours Holes ContoursFacts.

(** ** Reading cells by position *)

Lemma nth_error_mapi_from {A B : Type} (f : nat -> A -> B) (l : list A) :
  forall k i,
    nth_error (mapi_from k f l) i = option_map (f (k + i)%nat) (nth_error l i).
Proof.
  induction l as [|x l IH]; intros k i; destruct i as [|i]; simpl;
    try reflexivity.
  - rewrite Nat.add_0_r. reflexivity.
  - rewrite IH. replace (S k + i)%nat with (k + S i)%nat by lia.
    reflexivity.
Qed.

Lemma cell_at_dilate_step (mask cur : grid bool) (i j : nat) :
  cell_at (dilate_step mask cur) i j
  = option_map (fun m : bool => if m then hit cur i j else read cur i j)
      (cell_at mask i j).
Proof.
  unfold cell_at, dilate_step. rewrite nth_error_mapi_from.
  destruct (nth_error mask i) as [row|]; simpl; [|reflexivity].
  rewrite nth_error_mapi_from. reflexivity.
Qed.

Lemma cell_at_map {A B : Type} (f : A -> B) (g : grid A) (i j : nat) :
  cell_at (map (map f) g) i j = option_map f (cell_at g i j).
Proof.
  unfold cell_at. rewrite nth_error_map.
  destruct (nth_error g i) as [row|]; simpl; [|reflexivity].
  apply nth_error_map.
Qed.

Lemma read_cell (cur : grid bool) (i j : nat) (b : bool) :
  cell_at cur i j = Some b -> read cur i j = b.
Proof.
  unfold cell_at, read. destruct (nth_error cur i) as [row|] eqn:E;
    [|discriminate].
  intros H. rewrite (nth_error_nth cur i [] E).
  apply nth_error_nth, H.
Qed.

Lemma read_outside (cur : grid bool) (i j : nat) :
  cell_at cur i j = None -> read cur i j = true.
Proof.
  unfold cell_at, read. destruct (nth_error cur i) as [row|] eqn:E.
  - intros H. rewrite (nth_error_nth cur i [] E).
    apply nth_overflow, nth_error_None, H.
  - intros _. apply nth_error_None in E.
    rewrite (nth_overflow cur [] E). destruct j; reflexivity.
Qed.

Lemma Forall2_nth_error_none {A B : Type} (R : A -> B -> Prop)
    (l1 : list A) (l2 : list B) (i : nat) :
  Forall2 R l1 l2 -> nth_error l1 i = None -> nth_error l2 i = None.
Proof.
  intros H E. apply nth_error_None. apply nth_error_None in E.
  rewrite <- (Forall2_length H). exact E.
Qed.

Lemma Forall2_nth_error_some {A B : Type} (R : A -> B -> Prop)
    (l1 : list A) (l2 : list B) :
  Forall2 R l1 l2 ->
  forall i x, nth_error l1 i = Some x ->
  exists y, nth_error l2 i = Some y /\ R x y.
Proof.
  induction 1 as [|a b l1 l2 Hab H IH]; intros i x E.
  - destruct i; discriminate.
  - destruct i as [|i]; simpl in *.
    + injection E as <-. exists b. split; [reflexivity|exact Hab].
    + apply IH, E.
Qed.

Lemma alike_cell_none {A B : Type} (a : grid A) (b : grid B) (i j : nat) :
  alike a b -> cell_at a i j = None -> cell_at b i j = None.
Proof.
  intros H. unfold cell_at.
  destruct (nth_error a i) as [row|] eqn:E.
  - destruct (Forall2_nth_error_some _ _ _ H i row E) as (row' & E' & Hr).
    rewrite E'. apply Forall2_nth_error_none with (1 := Hr).
  - intros _. rewrite (Forall2_nth_error_none _ _ _ i H E). reflexivity.
Qed.

(** ** The flood stays in the background *)

Lemma mapi_from_same {A : Type} (f : nat -> A -> A) (l : list A) :
  forall k,
    (forall i x, nth_error l i = Some x -> f (k + i)%nat x = x) ->
    mapi_from k f l = l.
Proof.
  induction l as [|x l IH]; intros k H; simpl; [reflexivity|].
  f_equal.
  - specialize (H 0%nat x eq_refl). rewrite Nat.add_0_r in H. exact H.
  - apply IH. intros i y E.
    replace (S k + i)%nat with (k + S i)%nat by lia. apply H. exact E.
Qed.

Lemma dilate_step_self (m : grid bool) : dilate_step m m = m.
Proof.
  unfold dilate_step. apply mapi_from_same. intros i row Ei.
  apply mapi_from_same. intros j b Ej. simpl.
  assert (Hc : cell_at m i j = Some b)
    by (unfold cell_at; rewrite Ei; exact Ej).
  pose proof (read_cell _ _ _ _ Hc) as Hr.
  destruct b; [|exact Hr]. apply hit_read, Hr.
Qed.

Lemma zeros_below (a b : grid bool) : alike a b -> subset (zeros_like a) b.
Proof.
  unfold alike, subset, zeros_like. induction 1 as [|r1 r2 a b Hr H IH]; simpl.
  - constructor.
  - constructor; [|exact IH].
    clear - Hr. induction Hr; simpl; constructor; [discriminate|assumption].
Qed.

Lemma logical_not_twice (a : grid bool) : logical_not (logical_not a) = a.
Proof.
  unfold logical_not. rewrite map_map.
  rewrite <- (map_id a) at 2. apply map_ext. intros row.
  rewrite map_map. rewrite <- (map_id row) at 2. apply map_ext.
  intros b. apply negb_involutive.
Qed.

Lemma flood_in_background (input r : grid bool) (fuel : nat) :
  dilate_loop fuel (logical_not input) (zeros_like input) = Some r ->
  subset r (logical_not input).
Proof.
  intros H.
  apply (dilate_loop_below fuel (logical_not input) (logical_not input)
           (logical_not input)) with (cur := zeros_like input).
  - apply subset_refl.
  - apply dilate_step_self.
  - apply zeros_below, logical_not_alike.
  - exact H.
Qed.

(** X20.  The hole filling only adds cells: every cell at or above the level
    belongs to the silhouette [extract_contours] traces. *)
Theorem region_mask_covers_threshold
    (elevation : grid cell) (nodata : option Q) (level : Q) :
  exists m,
    region_mask elevation nodata level = Some m /\
    subset (threshold level (mask_nodata nodata elevation)) m.
Proof.
  unfold region_mask, binary_fill_holes. cbv zeta.
  set (input := threshold level (mask_nodata nodata elevation)).
  destruct (binary_fill_holes_total input) as [r Hr].
  rewrite Hr. simpl. eexists. split; [reflexivity|].
  pose proof (flood_in_background _ _ _ Hr) as Hsub.
  apply logical_not_antitone in Hsub.
  rewrite logical_not_twice in Hsub. exact Hsub.
Qed.

(** ** Background that is open to the border *)

Lemma flood_reaches_open (input r : grid bool) :
  subset r (logical_not input) ->
  dilate_step (logical_not input) r = r ->
  forall i j, open_to_border input i j -> cell_at r i j = Some true.
Proof.
  intros Hsub Hstable.
  assert (Hshape : alike input r).
  { apply alike_trans with (logical_not input);
      [apply logical_not_alike|apply alike_flip, subset_alike, Hsub]. }
  assert (Hcell : forall i j, cell_at input i j = Some false ->
                  cell_at r i j = Some (hit r i j)).
  { intros i j Hc. rewrite <- Hstable at 1. rewrite cell_at_dilate_step.
    unfold logical_not. rewrite cell_at_map, Hc. reflexivity. }
  intros i j Hopen. induction Hopen as [i j Hc Hb|i j i' j' Hc Ha _ IH].
  - rewrite (Hcell _ _ Hc). f_equal. unfold hit.
    destruct Hb as [->|[->|[Hb|Hb]]].
    + simpl. rewrite orb_true_r. reflexivity.
    + simpl. rewrite !orb_true_r. reflexivity.
    + rewrite (read_outside r (S i) j (alike_cell_none _ _ _ _ Hshape Hb)).
      rewrite !orb_true_r. reflexivity.
    + rewrite (read_outside r i (S j) (alike_cell_none _ _ _ _ Hshape Hb)).
      rewrite !orb_true_r. reflexivity.
  - rewrite (Hcell _ _ Hc). f_equal. unfold hit.
    apply read_cell in IH.
    destruct Ha as [[-> ->]|[[-> ->]|[[-> ->]|[-> ->]]]].
    + rewrite IH, !orb_true_r. reflexivity.
    + simpl. rewrite IH, !orb_true_r. reflexivity.
    + rewrite IH, !orb_true_r. reflexivity.
    + simpl. rewrite IH, !orb_true_r. reflexivity.
Qed.

(** X21.  Background that is joined to the border of the array by background
    cells is never filled: the hole filling leaves the open sea alone. *)
Theorem binary_fill_holes_keeps_open_background
    (input : grid bool) (i j : nat) :
  open_to_border input i j ->
  exists filled,
    binary_fill_holes input = Some filled /\
    cell_at filled i j = Some false.
Proof.
  intros Hopen. unfold binary_fill_holes.
  destruct (binary_fill_holes_total input) as [r Hr].
  rewrite Hr. simpl. eexists. split; [reflexivity|].
  unfold logical_not at 1. rewrite cell_at_map.
  rewrite (flood_reaches_open input r).
  - reflexivity.
  - apply flood_in_background with (1 := Hr).
  - apply dilate_loop_stable with (1 := Hr).
  - exact Hopen.
Qed.

Lemma binary_fill_holes_keeps_open_background_witness :
  exists filled,
    binary_fill_holes (threshold 4 crater) = Some filled /\
    cell_at filled 2 3 = Some false.
Proof.
  apply (binary_fill_holes_keeps_open_background (threshold 4 crater) 2 3).
  apply open_at_border.
  - vm_compute. reflexivity.
  - right. right. right. vm_compute. reflexivity.
Defined.

(** ** Holes *)

Lemma mapi_row_alike {A B : Type} (f : nat -> A -> B) (row : list A) :
  forall k, Forall2 (fun _ _ => True) row (mapi_from k f row).
Proof. induction row; intros k; simpl; constructor; auto. Qed.

Lemma mapi_grid_alike {A B : Type} (f : nat -> nat -> A -> B) (g : grid A) :
  forall k, alike g (mapi_from k (fun i row => mapi_from 0 (f i) row) g).
Proof.
  unfold alike. induction g as [|row g IH]; intros k; simpl; constructor.
  - apply mapi_row_alike.
  - apply IH.
Qed.

Lemma row_pointwise (r1 r2 : list bool) :
  Forall2 (fun _ _ => True) r1 r2 ->
  (forall j, nth_error r1 j = Some true -> nth_error r2 j = Some true) ->
  Forall2 implies r1 r2.
Proof.
  induction 1 as [|x y r1 r2 _ H IH]; intros Hp; constructor.
  - intros ->. specialize (Hp 0%nat eq_refl). simpl in Hp. congruence.
  - apply IH. intros j. apply (Hp (S j)).
Qed.

Lemma subset_pointwise (a b : grid bool) :
  alike a b ->
  (forall i j, cell_at a i j = Some true -> cell_at b i j = Some true) ->
  subset a b.
Proof.
  unfold alike, subset. induction 1 as [|r1 r2 a b Hr H IH]; intros Hp;
    constructor.
  - apply row_pointwise; [exact Hr|]. intros j. apply (Hp 0%nat j).
  - apply IH. intros i j. apply (Hp (S i) j).
Qed.

Lemma subset_cell (a b : grid bool) (i j : nat) :
  subset a b -> cell_at b i j = Some false ->
  cell_at a i j = Some false.
Proof.
  intros H. unfold cell_at.
  destruct (nth_error a i) as [row|] eqn:E.
  - destruct (Forall2_nth_error_some _ _ _ H i row E) as (row' & E' & Hr).
    rewrite E'. intros Hb.
    destruct (nth_error row j) as [x|] eqn:Ex.
    + destruct (Forall2_nth_error_some _ _ _ Hr j x Ex) as (y & Ey & Hxy).
      rewrite Ey in Hb. injection Hb as ->.
      destruct x; [|reflexivity]. specialize (Hxy eq_refl). discriminate.
    + rewrite (Forall2_nth_error_none _ _ _ j Hr Ex) in Hb. discriminate.
  - rewrite (Forall2_nth_error_none _ _ _ i H E). discriminate.
Qed.

Lemma subset_trans (a b c : grid bool) :
  subset a b -> subset b c -> subset a c.
Proof.
  unfold subset. revert b c.
  induction a as [|r a IH]; intros b c H1 H2.
  - inversion H1; subst. inversion H2; subst. constructor.
  - inversion H1 as [|? r' ? b' Hr Hab]; subst.
    inversion H2 as [|? r'' ? c' Hr' Hbc]; subst.
    constructor; [|apply (IH b' c'); assumption].
    clear - Hr Hr'. revert r' r'' Hr Hr'.
    induction r as [|x r IHr]; intros r' r'' Hr Hr'.
    + inversion Hr; subst. inversion Hr'; subst. constructor.
    + inversion Hr as [|? y ? s Hxy Hrs]; subst.
      inversion Hr' as [|? z ? s' Hyz Hss]; subst.
      constructor; [intros Hx; apply Hyz, Hxy, Hx|].
      apply (IHr s s'); assumption.
Qed.

Lemma dilate_loop_closed (fuel : nat) (mask bound : grid bool) :
  subset (dilate_step mask bound) bound ->
  forall cur r, subset cur bound ->
  dilate_loop fuel mask cur = Some r -> subset r bound.
Proof.
  intros Hclosed. induction fuel as [|fuel IH]; intros cur r Hcur Hrun.
  - discriminate.
  - cbn [dilate_loop] in Hrun. cbv zeta in Hrun.
    destruct (grid_eqb (dilate_step mask cur) cur).
    + injection Hrun as <-. exact Hcur.
    + apply (IH (dilate_step mask cur)); [|exact Hrun].
      apply subset_trans with (dilate_step mask bound); [|exact Hclosed].
      apply dilate_step_mono; [apply subset_refl|exact Hcur].
Qed.

Lemma cell_at_background_without (hole : nat -> nat -> bool)
    (input : grid bool) (i j : nat) :
  cell_at (background_without hole input) i j
  = option_map (fun b : bool => negb b && negb (hole i j))
      (cell_at input i j).
Proof.
  unfold cell_at, background_without. rewrite nth_error_mapi_from.
  destruct (nth_error input i) as [row|]; simpl; [|reflexivity].
  rewrite nth_error_mapi_from. reflexivity.
Qed.

Lemma enclosed_neighbour_dry (input : grid bool) (hole : nat -> nat -> bool)
    (i j i' j' : nat) :
  enclosed input hole -> hole i j = true -> adjacent i j i' j' ->
  read (background_without hole input) i' j' = false.
Proof.
  intros He Hh Ha. apply read_cell. rewrite cell_at_background_without.
  destruct (He i j Hh) as (_ & _ & Hn).
  destruct (Hn i' j' Ha) as [Hh'|Hc].
  - destruct (He i' j' Hh') as (Hc & _). rewrite Hc, Hh'. reflexivity.
  - rewrite Hc. reflexivity.
Qed.

Lemma background_without_closed (input : grid bool)
    (hole : nat -> nat -> bool) :
  enclosed input hole ->
  subset (dilate_step (logical_not input) (background_without hole input))
         (background_without hole input).
Proof.
  intros He. apply subset_pointwise.
  - apply alike_trans with (logical_not input).
    + apply alike_flip. unfold dilate_step. apply mapi_grid_alike.
    + apply alike_trans with input.
      * apply alike_flip, logical_not_alike.
      * unfold background_without. apply mapi_grid_alike.
  - intros i j. rewrite cell_at_dilate_step.
    unfold logical_not. rewrite cell_at_map, cell_at_background_without.
    destruct (cell_at input i j) as [b|] eqn:Hc; [|discriminate].
    simpl. destruct b; simpl.
    + intros H. injection H as H.
      rewrite (read_cell _ i j false) in H; [discriminate|].
      rewrite cell_at_background_without, Hc. reflexivity.
    + destruct (hole i j) eqn:Hh; [|reflexivity].
      intros H. injection H as H. exfalso.
      destruct (He i j Hh) as (_ & Hb & _).
      assert (Hi : i <> 0%nat) by (intros ->; apply Hb; left; reflexivity).
      assert (Hj : j <> 0%nat)
        by (intros ->; apply Hb; right; left; reflexivity).
      destruct i as [|i0]; [congruence|]. destruct j as [|j0]; [congruence|].
      unfold hit in H. cbn [read_up read_left] in H.
      rewrite (read_cell _ (S i0) (S j0) false) in H
        by (rewrite cell_at_background_without, Hc, Hh; reflexivity).
      rewrite (enclosed_neighbour_dry input hole (S i0) (S j0) i0 (S j0)
                 He Hh) in H
        by (right; left; split; reflexivity).
      rewrite (enclosed_neighbour_dry input hole (S i0) (S j0) (S (S i0))
                 (S j0) He Hh) in H
        by (left; split; reflexivity).
      rewrite (enclosed_neighbour_dry input hole (S i0) (S j0) (S i0) j0
                 He Hh) in H
        by (right; right; right; split; reflexivity).
      rewrite (enclosed_neighbour_dry input hole (S i0) (S j0) (S i0)
                 (S (S j0)) He Hh) in H
        by (right; right; left; split; reflexivity).
      discriminate.
Qed.

(** X22.  A set of background cells that is closed in by cells of the input is
    filled: every one of its cells is set afterwards. *)
Theorem binary_fill_holes_fills_enclosed
    (input : grid bool) (hole : nat -> nat -> bool) (i j : nat) :
  enclosed input hole -> hole i j = true ->
  exists filled,
    binary_fill_holes input = Some filled /\
    cell_at filled i j = Some true.
Proof.
  intros He Hh. unfold binary_fill_holes.
  destruct (binary_fill_holes_total input) as [r Hr].
  rewrite Hr. simpl. eexists. split; [reflexivity|].
  assert (Hsub : subset r (background_without hole input)).
  { apply (dilate_loop_closed (S (cell_count input)) (logical_not input) _
             (background_without_closed input hole He)
             (zeros_like input) r); [|exact Hr].
    apply zeros_below. unfold background_without. apply mapi_grid_alike. }
  unfold logical_not. rewrite cell_at_map.
  rewrite (subset_cell r _ i j Hsub); [reflexivity|].
  rewrite cell_at_background_without.
  destruct (He i j Hh) as (Hc & _). rewrite Hc, Hh. reflexivity.
Qed.

Lemma crater_pit_cells (i j : nat) :
  crater_pit i j = true -> (i = 1%nat \/ i = 2%nat) /\ j = 1%nat.
Proof.
  unfold crater_pit. intros H. apply andb_prop in H as [Hj Hi].
  apply Nat.eqb_eq in Hj. apply orb_prop in Hi.
  split; [|exact Hj].
  destruct Hi as [Hi|Hi]; apply Nat.eqb_eq in Hi; auto.
Qed.

Lemma crater_pit_enclosed : enclosed (threshold 4 crater) crater_pit.
Proof.
  intros i j H. apply crater_pit_cells in H as [[-> | ->] ->].
  - split; [vm_compute; reflexivity|]. split.
    + intros [H|[H|[H|H]]]; vm_compute in H; discriminate.
    + intros i' j' [[-> ->]|[[E ->]|[[-> ->]|[-> E]]]].
      * left. reflexivity.
      * injection E as <-. right. vm_compute. reflexivity.
      * right. vm_compute. reflexivity.
      * injection E as <-. right. vm_compute. reflexivity.
  - split; [vm_compute; reflexivity|]. split.
    + intros [H|[H|[H|H]]]; vm_compute in H; discriminate.
    + intros i' j' [[-> ->]|[[E ->]|[[-> ->]|[-> E]]]].
      * right. vm_compute. reflexivity.
      * injection E as <-. left. reflexivity.
      * right. vm_compute. reflexivity.
      * injection E as <-. right. vm_compute. reflexivity.
Qed.

Lemma binary_fill_holes_fills_enclosed_witness :
  exists filled,
    binary_fill_holes (threshold 4 crater) = Some filled /\
    cell_at filled 1 1 = Some true.
Proof.
  apply (binary_fill_holes_fills_enclosed (threshold 4 crater) crater_pit 1 1).
  - exact crater_pit_enclosed.
  - reflexivity.
Defined.

End HolesFacts.

Module SimplifyFacts.
Import RDP Simplify RDPFacts.

Local Open Scope Q_scope.

(** ** Subsequences *)

Lemma subseq_refl {A : Type} (l : list A) : subseq l l.
Proof. induction l; constructor; assumption. Qed.

Lemma subseq_empty {A : Type} (l : list A) : subseq [] l.
Proof. induction l; constructor; assumption. Qed.

Lemma subseq_app {A : Type} (a b c d : list A) :
  subseq a b -> subseq c d -> subseq (a ++ c) (b ++ d).
Proof.
  intros H1 H2. induction H1; simpl; [exact H2| |]; constructor; assumption.
Qed.



Lemma subseq_trans {A : Type} (l m n : list A) :
  subseq l m -> subseq m n -> subseq l n.
Proof.
  intros H1 H2. revert l H1.
  induction H2 as [|x m n _ IH|x m n _ IH]; intros l H1.
  - exact H1.
  - apply subseq_skip. apply IH, H1.
  - inversion H1 as [|y l' m' H|y l' m' H]; subst.
    + apply subseq_skip. apply IH, H.
    + apply subseq_keep. apply IH, H.
Qed.

Lemma subseq_of_nil {A : Type} (l : list A) : subseq l [] -> l = [].
Proof. intros H. inversion H. reflexivity. Qed.

(** Dropping the last element of a subsequence of [m ++ [x]] leaves a
    subsequence of [m]. *)
Lemma subseq_removelast {A : Type} (m : list A) (x : A) :
  forall l, subseq l (m ++ [x]) -> subseq (removelast l) m.
Proof.
  induction m as [|y m IH]; intros l H; simpl in H.
  - inversion H as [|? ? ? H'|? l' ? H']; subst.
    + apply subseq_of_nil in H'. subst. constructor.
    + apply subseq_of_nil in H'. subst. constructor.
  - inversion H as [|? ? ? H'|? l' ? H']; subst.
    + apply subseq_skip. apply IH, H'.
    + destruct l' as [|z l'].
      * simpl. apply subseq_empty.
      * change (removelast (y :: z :: l')) with (y :: removelast (z :: l')).
        apply subseq_keep. apply IH, H'.
Qed.

Lemma firstn_snoc {A : Type} (l : list A) (d : A) (k : nat) :
  (k < length l)%nat -> firstn (k + 1) l = firstn k l ++ [nth k l d].
Proof.
  revert k. induction l as [|x l IH]; intros k Hk; simpl in Hk; [lia|].
  destruct k as [|k]; simpl.
  - reflexivity.
  - f_equal. apply IH. lia.
Qed.


(** ** What the simplification returns *)




End SimplifyFacts.

Module KeptContoursFacts.
Import PrimFloat.
Import RDP64 Simplify SimplifyFacts FloatFacts SchemeFacts RDP64Facts.

(** ** Which contours are kept *)

Lemma two_ends_subseq {A : Type} (origin : A) (points : list A) :
  (2 <= length points)%nat ->
  subseq [nth 0 points origin; last points origin] points.
Proof.
  intros Hlen. destruct points as [|a rest]; [simpl in Hlen; lia|].
  destruct rest as [|b rest]; [simpl in Hlen; lia|].
  cbn [nth].
  change (last (a :: b :: rest) origin) with (last (b :: rest) origin).
  apply subseq_keep.
  assert (Hne : b :: rest <> []) by discriminate.
  rewrite (app_removelast_last origin Hne) at 2.
  change [last (b :: rest) origin] with ([] ++ [last (b :: rest) origin]).
  apply subseq_app; [apply subseq_empty|apply subseq_refl].
Qed.

Lemma rdp_step (epsilon : float) (fuel : nat) (points : list point) :
  rdp_simplify (S fuel) points epsilon =
  if (length points <? 3)%nat then Some points
  else
    match far epsilon points with
    | Some idx =>
        match rdp_simplify fuel (firstn (idx + 1) points) epsilon with
        | None => None
        | Some left_ =>
            match rdp_simplify fuel (skipn idx points) epsilon with
            | None => None
            | Some right_ => Some (removelast left_ ++ right_)
            end
        end
    | None => Some [first_point points; last_point points]
    end.
Proof.
  cbn [rdp_simplify]. cbv zeta. unfold far, max_dist.
  destruct (length points <? 3)%nat; [reflexivity|].
  destruct (epsilon <? nth (argmax (dists points)) (dists points) nan)%float;
    reflexivity.
Qed.

Lemma points_only_dropped (epsilon : float) (fuel : nat) :
  (epsilon <? 0)%float = false ->
  forall points out,
    rdp_simplify fuel points epsilon = Some out -> subseq out points.
Proof.
  intros He.
  induction fuel as [|fuel IH]; intros points out Hrun; [discriminate|].
  rewrite rdp_step in Hrun.
  destruct (length points <? 3)%nat eqn:Hlen.
  - injection Hrun as <-. apply subseq_refl.
  - apply Nat.ltb_ge in Hlen.
    destruct (far epsilon points) as [idx|] eqn:Hf.
    + pose proof (far_interior epsilon He points idx Hlen Hf) as Hidx.
      destruct (rdp_simplify fuel (firstn (idx + 1) points) epsilon)
        as [left_|] eqn:El; [|discriminate].
      destruct (rdp_simplify fuel (skipn idx points) epsilon)
        as [right_|] eqn:Er; [|discriminate].
      injection Hrun as <-.
      rewrite <- (firstn_skipn idx points).
      apply subseq_app.
      * apply subseq_removelast with (x := nth idx points origin).
        rewrite <- firstn_snoc by lia. apply IH, El.
      * apply IH, Er.
    + injection Hrun as <-. apply two_ends_subseq. lia.
Qed.

(** A contour of 3 points or more keeps 3 points or more exactly when the
    greatest distance the code computes exceeds the tolerance. *)
Lemma rdp_three_points (epsilon : float) (fuel : nat) (points : list point) :
  (epsilon <? 0)%float = false -> (3 <= length points <= fuel)%nat ->
  exists out,
    rdp_simplify fuel points epsilon = Some out /\
    first_point out = first_point points /\
    last_point out = last_point points /\
    ((3 <= length out)%nat <-> (epsilon <? max_dist points)%float = true).
Proof.
  intros He Hlen.
  destruct (ends_kept _ origin (far epsilon) (far_interior epsilon He)
              fuel points ltac:(lia)) as (out & Hout & Hf & Hl & _).
  exists out. rewrite rdp_simplify_scheme.
  split; [exact Hout|]. split; [exact Hf|]. split; [exact Hl|].
  destruct fuel as [|fuel]; [lia|].
  destruct (far epsilon points) as [idx|] eqn:Hfar.
  - destruct (split_point_kept _ origin (far epsilon)
                (far_interior epsilon He) fuel points idx Hlen Hfar)
      as (out' & Hout' & _ & H3).
    rewrite Hout in Hout'. injection Hout' as <-.
    split; [intros _|intros _; exact H3].
    unfold far in Hfar.
    destruct (epsilon <? max_dist points)%float; [reflexivity|discriminate].
  - rewrite (call_collapse _ origin (far epsilon) fuel points
               ltac:(lia) Hfar) in Hout.
    injection Hout as <-. simpl.
    unfold far in Hfar.
    destruct (epsilon <? max_dist points)%float; [discriminate|].
    split; [lia|discriminate].
Qed.

Lemma simplify_loop_runs (epsilon : float) (fuel : nat) :
  (epsilon <? 0)%float = false ->
  forall cs,
    Forall (fun c => (10 <= length c <= fuel)%nat) cs ->
    exists outs,
      simplify_loop fuel cs epsilon = Some outs /\
      Forall (fun s => (3 <= length s)%nat /\
                       exists c, In c cs /\
                                 rdp_simplify fuel c epsilon = Some s) outs /\
      (forall c, In c cs -> (epsilon <? max_dist c)%float = true ->
                 exists s, rdp_simplify fuel c epsilon = Some s /\
                           In s outs) /\
      (forall c, In c cs -> (epsilon <? max_dist c)%float = false ->
                 forall s, rdp_simplify fuel c epsilon = Some s ->
                           (length s < 3)%nat).
Proof.
  intros He cs. induction cs as [|c cs IH]; intros Hcs.
  - exists []. split; [reflexivity|]. split; [constructor|].
    split; intros c [].
  - pose proof (Forall_inv Hcs) as Hc. cbv beta in Hc.
    destruct (IH (Forall_inv_tail Hcs)) as (outs & Hrun & Hall & Hkept & Hdrop).
    destruct (rdp_three_points epsilon fuel c He ltac:(lia))
      as (s & Hs & _ & _ & Hiff).
    cbn [simplify_loop].
    assert (H4 : (length c <? 4)%nat = false) by (apply Nat.ltb_ge; lia).
    rewrite H4, Hs, Hrun. cbn [option_map].
    assert (Hweak : Forall (fun s0 => (3 <= length s0)%nat /\
                       exists c0, In c0 (c :: cs) /\
                                  rdp_simplify fuel c0 epsilon = Some s0)
                      outs).
    { apply Forall_impl with (2 := Hall).
      intros s0 (H3 & c0 & Hin & Hc0). split; [exact H3|].
      exists c0. split; [right; exact Hin|exact Hc0]. }
    destruct (3 <=? length s)%nat eqn:H3.
    + apply Nat.leb_le in H3. exists (s :: outs).
      split; [reflexivity|]. split; [|split].
      * constructor; [|exact Hweak]. split; [exact H3|].
        exists c. split; [left; reflexivity|exact Hs].
      * intros c0 [<-|Hin] Hex.
        -- exists s. split; [exact Hs|left; reflexivity].
        -- destruct (Hkept c0 Hin Hex) as (s0 & Hs0 & Hin0).
           exists s0. split; [exact Hs0|right; exact Hin0].
      * intros c0 [<-|Hin] Hex s0 Hs0.
        -- apply Hiff in H3. congruence.
        -- apply (Hdrop c0 Hin Hex s0 Hs0).
    + apply Nat.leb_gt in H3. exists outs.
      split; [reflexivity|]. split; [exact Hweak|split].
      * intros c0 [<-|Hin] Hex.
        -- apply Hiff in Hex. lia.
        -- apply (Hkept c0 Hin Hex).
      * intros c0 [<-|Hin] Hex s0 Hs0.
        -- rewrite Hs in Hs0. injection Hs0 as <-. exact H3.
        -- apply (Hdrop c0 Hin Hex s0 Hs0).
Qed.

(** X24.  The contours [extract_contours] returns, for a tolerance that is
    not negative: each one is the simplification of a raw contour of 10
    points or more, has 3 points or more, begins and ends where the raw
    contour does and leaves out points of it only; and a raw contour of 10
    points or more is represented exactly when the greatest distance the
    code computes for it exceeds the tolerance. *)
Theorem simplify_contours_kept
    (fuel : nat) (raw_contours : list (list point)) (epsilon : float) :
  (epsilon <? 0)%float = false ->
  Forall (fun c => (length c <= fuel)%nat) raw_contours ->
  exists outs,
    simplify_contours fuel raw_contours epsilon = Some outs /\
    Forall (fun s =>
              (3 <= length s)%nat /\
              exists c, In c raw_contours /\ (10 <= length c)%nat /\
                        rdp_simplify fuel c epsilon = Some s /\
                        subseq s c /\
                        first_point s = first_point c /\
                        last_point s = last_point c) outs /\
    (forall c, In c raw_contours -> (10 <= length c)%nat ->
       ((epsilon <? max_dist c)%float = true <->
        exists s, rdp_simplify fuel c epsilon = Some s /\ In s outs /\
                  (3 <= length s)%nat)).
Proof.
  intros He Hfuel. unfold simplify_contours.
  set (long := filter (fun c => (10 <=? length c)%nat) raw_contours).
  assert (Hlong : Forall (fun c => (10 <= length c <= fuel)%nat) long).
  { apply Forall_forall. intros c Hin. apply filter_In in Hin as [Hin H10].
    apply Nat.leb_le in H10. rewrite Forall_forall in Hfuel.
    specialize (Hfuel c Hin). lia. }
  destruct (simplify_loop_runs epsilon fuel He long Hlong)
    as (outs & Hrun & Hall & Hkept & Hdrop).
  exists outs. split; [exact Hrun|]. split.
  - apply Forall_impl with (2 := Hall).
    intros s (H3 & c & Hin & Hs). split; [exact H3|].
    apply filter_In in Hin as [Hin H10]. apply Nat.leb_le in H10.
    rewrite Forall_forall in Hfuel. specialize (Hfuel c Hin).
    exists c. split; [exact Hin|]. split; [exact H10|].
    split; [exact Hs|].
    split; [apply (points_only_dropped epsilon fuel He), Hs|].
    destruct (rdp_three_points epsilon fuel c He ltac:(lia))
      as (s' & Hs' & Hf & Hl & _).
    rewrite Hs in Hs'. injection Hs' as <-. split; assumption.
  - intros c Hin H10.
    assert (Hin' : In c long)
      by (apply filter_In; split; [exact Hin|apply Nat.leb_le, H10]).
    split.
    + intros Hex. destruct (Hkept c Hin' Hex) as (s & Hs & Hs').
      exists s. split; [exact Hs|]. split; [exact Hs'|].
      rewrite Forall_forall in Hall. apply (Hall s Hs').
    + intros (s & Hs & _ & H3).
      destruct (epsilon <? max_dist c)%float eqn:E; [reflexivity|].
      pose proof (Hdrop c Hin' E s Hs). lia.
Qed.

Lemma simplify_contours_kept_witness :
  exists outs,
    simplify_contours 13 [square_contour; speck_contour] 1 = Some outs /\
    Forall (fun s => (3 <= length s)%nat) outs.
Proof.
  destruct (simplify_contours_kept 13 [square_contour; speck_contour] 1)
    as (outs & Hrun & Hall & _).
  - reflexivity.
  - repeat (apply Forall_cons; [simpl; lia|]). apply Forall_nil.
  - exists outs. split; [exact Hrun|].
    apply Forall_impl with (2 := Hall). intros s [H _]. exact H.
Defined.

End KeptContoursFacts.


Module ImageryFacts.
Import Imagery.
Import RasterFileFacts.

Local Open Scope R_scope.


(** ** The automatic zoom of the satellite tiles *)

Lemma search_zoom_in (zs : list Z) (top_ bottom_ m_dem : R) (zoom : Z) :
  search_zoom zs top_ bottom_ m_dem zoom = zoom \/
  In (search_zoom zs top_ bottom_ m_dem zoom) zs.
Proof.
  induction zs as [|z zs IH]; simpl.
  - left. reflexivity.
  - destruct (Rle_dec _ m_dem).
    + right. left. reflexivity.
    + destruct IH as [IH|IH]; [left; exact IH|right; right; exact IH].
Qed.

(** X25.  For a raster that has a width, the automatic zoom lies between 11
    and 17, whatever the file says about its bounds and its size. *)
Theorem satellite_zoom_range (left_ right_ top_ bottom_ : R) (orig_w : Z) :
  orig_w <> 0%Z ->
  exists z,
    satellite_zoom left_ right_ top_ bottom_ orig_w = Some z /\
    (11 <= z <= 17)%Z.
Proof.
  intros Hw. unfold satellite_zoom. cbv zeta.
  apply Z.eqb_neq in Hw. rewrite Hw.
  eexists. split; [reflexivity|].
  destruct (search_zoom_in (Mosaic.zrange 10 8) top_ bottom_
              (m_per_dem_px left_ right_ top_ bottom_ orig_w) 10) as [E|Hin].
  - rewrite E. lia.
  - apply in_zrange in Hin. lia.
Qed.

Lemma satellite_zoom_range_witness :
  exists z, satellite_zoom 0 1 0 0 256 = Some z /\ (11 <= z <= 17)%Z.
Proof.
  apply (satellite_zoom_range 0 1 0 0 256). lia.
Defined.






End ImageryFacts.

Module CommandLineFacts.
Import PrimFloat CommandLine FloatFacts.

Lemma split_not_empty (sep : Ascii.ascii) (s : text) : split sep s <> [].
Proof.
  destruct s as [|c rest]; simpl; [discriminate|].
  destruct (Ascii.eqb c sep); [discriminate|].
  destruct (split sep rest); discriminate.
Qed.

Lemma split_one (sep : Ascii.ascii) (s : text) :
  forall u, split sep s = [u] -> s = u /\ ~ In sep u.
Proof.
  induction s as [|c rest IH]; intros u H; simpl in H.
  - injection H as <-. split; [reflexivity|intros []].
  - destruct (Ascii.eqb c sep) eqn:E.
    + injection H as _ H. exfalso. exact (split_not_empty sep rest H).
    + destruct (split sep rest) as [|w ws] eqn:Es.
      * exfalso. exact (split_not_empty sep rest Es).
      * injection H as <- ->. destruct (IH w eq_refl) as [-> Hn].
        split; [reflexivity|].
        intros [->|Hin]; [|exact (Hn Hin)].
        rewrite Ascii.eqb_refl in E. discriminate.
Qed.

Lemma split_two (sep : Ascii.ascii) (s : text) :
  forall u v, split sep s = [u; v] ->
              s = u ++ sep :: v /\ ~ In sep u /\ ~ In sep v.
Proof.
  induction s as [|c rest IH]; intros u v H; simpl in H.
  - discriminate.
  - destruct (Ascii.eqb c sep) eqn:E.
    + apply Ascii.eqb_eq in E. subst c. injection H as <- H.
      destruct (split_one sep rest v H) as [-> Hn].
      split; [reflexivity|]. split; [intros []|exact Hn].
    + destruct (split sep rest) as [|w ws] eqn:Es.
      * discriminate.
      * injection H as <- ->.
        destruct (IH w v eq_refl) as (-> & Hu & Hv).
        split; [reflexivity|]. split; [|exact Hv].
        intros [->|Hin]; [|exact (Hu Hin)].
        rewrite Ascii.eqb_refl in E. discriminate.
Qed.

(** X28.  A range is accepted only when the argument has exactly one hyphen
    with a number before it and a number after it; so a bound written with
    a minus sign is never accepted: the argument must not begin with a
    hyphen and must not have a second one.  The two numbers come back as
    they were or exchanged, never with the second below the first, and in
    increasing order when neither of them is NaN. *)
Theorem parse_range_one_hyphen
    (float : text -> option PrimFloat.float) (arg : text)
    (lo hi : PrimFloat.float) :
  float [] = None ->
  parse_range float arg = Some (lo, hi) ->
  exists u v a b,
    arg = u ++ hyphen :: v /\
    u <> [] /\ v <> [] /\ ~ In hyphen u /\ ~ In hyphen v /\
    float u = Some a /\ float v = Some b /\
    ((lo, hi) = (a, b) \/ (lo, hi) = (b, a)) /\
    (hi <? lo)%float = false /\
    (is_nan a = false -> is_nan b = false -> (lo <=? hi)%float = true).
Proof.
  intros Hempty Hrun. unfold parse_range in Hrun.
  destruct (split hyphen arg) as [|u [|v [|w ws]]] eqn:Es; simpl in Hrun;
    try discriminate.
  - destruct (float u); discriminate.
  - destruct (float u) as [a|] eqn:Eu; [|discriminate].
    destruct (float v) as [b|] eqn:Ev; [|discriminate].
    destruct (split_two hyphen arg u v Es) as (-> & Hu & Hv).
    exists u, v, a, b. split; [reflexivity|].
    split; [intros ->; congruence|]. split; [intros ->; congruence|].
    split; [exact Hu|]. split; [exact Hv|].
    split; [exact Eu|]. split; [exact Ev|].
    unfold sorted_2 in Hrun.
    destruct (b <? a)%float eqn:E; injection Hrun as <- <-.
    + split; [right; reflexivity|].
      split; [apply ltb_asym, E|]. intros _ _. apply ltb_leb, E.
    + split; [left; reflexivity|].
      split; [exact E|]. intros Ha Hb. apply leb_total; assumption.
  - destruct (float u); [|discriminate]. destruct (float v); [|discriminate].
    destruct (float w); discriminate.
Qed.

Lemma float_1_2_empty : float_1_2 [] = None.
Proof. reflexivity. Qed.

Lemma parse_range_2_1 :
  parse_range float_1_2 text_2_1 = Some (1, 2)%float.
Proof. reflexivity. Qed.

Lemma parse_range_one_hyphen_witness :
  exists u v a b,
    text_2_1 = u ++ hyphen :: v /\
    u <> [] /\ v <> [] /\ ~ In hyphen u /\ ~ In hyphen v /\
    float_1_2 u = Some a /\ float_1_2 v = Some b /\
    ((1, 2)%float = (a, b) \/ (1, 2)%float = (b, a)) /\
    (2 <? 1)%float = false /\
    (is_nan a = false -> is_nan b = false -> (1 <=? 2)%float = true).
Proof.
  exact (parse_range_one_hyphen float_1_2 text_2_1 1%float 2%float
           float_1_2_empty parse_range_2_1).
Defined.

(** A bound that is NaN stays where it was written: [nan-35] gives the
    pair (NaN, 35) and [35-nan] the pair (35, NaN). *)
Lemma sorted_2_nan :
  sorted_2 nan 35 = (nan, 35%float) /\ sorted_2 35 nan = (35%float, nan).
Proof. split; reflexivity. Qed.

End CommandLineFacts.
